(** * pattern-matching: a shallow embedding of [src/index.ts]

    The engine is three combinators over dynamically typed JavaScript
    values: the descriptor constructors [either] / [neither], the arm
    builder [when] and the dispatcher [match] (spelled [match_] here, the
    bare word being reserved).

    Modelling choices, all read off the source:
    - a JavaScript value is a primitive or a reference into a heap of
      objects; [===] compares references, never contents;
    - numbers are IEEE-754 binary64 values, taken from the library's
      inductive specification [spec_float], whose [SFeqb] is the IEEE
      equality used by [===] (NaN differs from itself, the zeros agree);
    - an object carries its named data properties and, when it is an
      array, its (dense) items.  Accessor properties, proxies, callable
      properties and properties added to the built-in prototypes are
      outside the model;
    - [pattern] and [values] are typed [ReadonlyArray<any>] and are only
      read through [.length] and [[i]]: they are lists of values;
    - a [TypeError] raised by the runtime is the [Throw] outcome. *)

From Stdlib Require Import ZArith.
From Stdlib Require Import Floats.SpecFloat.
From stdpp Require Import base option list strings gmap fin_maps.

Local Open Scope string_scope.
Local Open Scope list_scope.

(** ** Values and the heap *)

Abbreviation loc := positive (only parsing).

Inductive value : Type :=
  | VUndefined
  | VNull
  | VBool (b : bool)
  | VNumber (x : spec_float)
  | VBigInt (n : Z)
  | VString (s : string)
  | VSymbol (id : positive)
  | VRef (l : loc).

(** The result of [typeof]-like classification used by [===]: two values
    of different types are never strictly equal. *)
Inductive jstype : Type :=
  | TUndefined | TNull | TBoolean | TNumber | TBigInt | TString | TSymbol
  | TObject.

Definition type_of (v : value) : jstype :=
  match v with
  | VUndefined => TUndefined
  | VNull => TNull
  | VBool _ => TBoolean
  | VNumber _ => TNumber
  | VBigInt _ => TBigInt
  | VString _ => TString
  | VSymbol _ => TSymbol
  | VRef _ => TObject
  end.

Record object : Type := Object {
  props : gmap string value;
  items : option (list value)
}.

Abbreviation heap := (gmap loc object) (only parsing).

(** The number literal [z] for an integer [z], rounded to binary64. *)
Definition number_of_Z (z : Z) : spec_float := binary_normalize 53 1024 z 0 false.

(** ** Primitive operations of the language *)

(** [a === b] *)
Definition strict_eq (a b : value) : bool :=
  match a, b with
  | VUndefined, VUndefined => true
  | VNull, VNull => true
  | VBool x, VBool y => Bool.eqb x y
  | VNumber x, VNumber y => SFeqb x y
  | VBigInt x, VBigInt y => Z.eqb x y
  | VString x, VString y => String.eqb x y
  | VSymbol x, VSymbol y => Pos.eqb x y
  | VRef x, VRef y => Pos.eqb x y
  | _, _ => false
  end.

(** [a !== b] *)
Definition strict_neq (a b : value) : bool := negb (strict_eq a b).

(** ToBoolean: the falsy values are [undefined], [null], [false], [0],
    [-0], [NaN], [0n] and the empty string. *)
Definition truthy (v : value) : bool :=
  match v with
  | VUndefined | VNull => false
  | VBool b => b
  | VNumber (S754_zero _) | VNumber S754_nan => false
  | VNumber _ => true
  | VBigInt n => negb (Z.eqb n 0)
  | VString s => negb (String.eqb s "")
  | VSymbol _ | VRef _ => true
  end.

(** [a && b] *)
Definition js_and (a b : value) : value := if truthy a then b else a.

(** Exceptions raised by the runtime. *)
Inductive exn : Type :=
  | TypeError (msg : string).

Inductive outcome (A : Type) : Type :=
  | Ok (a : A)
  | Throw (e : exn).
Arguments Ok {A} a.
Arguments Throw {A} e.

Definition bind {A B : Type} (m : outcome A) (k : A -> outcome B) : outcome B :=
  match m with
  | Ok a => k a
  | Throw e => Throw e
  end.

Notation "x <-- m ;; k" := (bind m (fun x => k))
  (at level 100, m at next level, right associativity).

(** The data property [key] seen on [v]: primitives are looked up on their
    (unmodified) prototypes, which define neither [operator] nor
    [elements]; an object answers with its own property. *)
Definition property (h : heap) (v : value) (key : string) : value :=
  match v with
  | VRef l =>
      match h !! l with
      | Some o => default VUndefined (props o !! key)
      | None => VUndefined
      end
  | _ => VUndefined
  end.

(** [v.key], also the read done by the destructuring [{ key } = v]: a
    [TypeError] on [null] and [undefined]. *)
Definition get (h : heap) (v : value) (key : string) : outcome value :=
  match v with
  | VUndefined | VNull =>
      Throw (TypeError "Cannot read properties of undefined or null")
  | _ => Ok (property h v key)
  end.

(** [v?.key]: short-circuits to [undefined] on [null] and [undefined]. *)
Definition get_opt (h : heap) (v : value) (key : string) : value :=
  match v with
  | VUndefined | VNull => VUndefined
  | _ => property h v key
  end.

(** The items of [v] when [v] is an array, which is what makes
    [v.some] and [v.every] callable. *)
Definition array_items (h : heap) (v : value) : outcome (list value) :=
  match v with
  | VUndefined | VNull =>
      Throw (TypeError "Cannot read properties of undefined or null")
  | VRef l =>
      match h !! l with
      | Some o =>
          match items o with
          | Some xs => Ok xs
          | None => Throw (TypeError "elements.some is not a function")
          end
      | None => Throw (TypeError "elements.some is not a function")
      end
  | _ => Throw (TypeError "elements.some is not a function")
  end.

(** [elements.some(f)] and [elements.every(f)] *)
Definition array_some (h : heap) (elements : value) (f : value -> bool) : outcome bool :=
  xs <-- array_items h elements ;; Ok (existsb f xs).

Definition array_every (h : heap) (elements : value) (f : value -> bool) : outcome bool :=
  xs <-- array_items h elements ;; Ok (forallb f xs).

(** Allocation of a new object at an unused location. *)
Definition alloc (o : object) (h : heap) : value * heap :=
  let l := fresh (dom h) in (VRef l, <[l := o]> h).

(** An array literal or rest parameter holding [xs]. *)
Definition array (xs : list value) : object := Object ∅ (Some xs).

(** ** The engine *)

Definition WILDCARD_VALUE : value := VString "__primitive__match__wildcard__value__".

Inductive Operator : Type := Either | Neither.

Definition operator_tag (op : Operator) : value :=
  match op with
  | Either => VString "either"
  | Neither => VString "neither"
  end.

(** [operation(operator, elements)]: the object literal
    [{ operator, elements }]. *)
Definition operation (operator : Operator) (elements : value) (h : heap) : value * heap :=
  alloc (Object (<["operator" := operator_tag operator]> (<["elements" := elements]> ∅)) None) h.

(** [either(...elements)]: the rest parameter is a new array. *)
Definition either (elements : list value) (h : heap) : value * heap :=
  let '(arr, h1) := alloc (array elements) h in
  operation Either arr h1.

Definition neither (elements : list value) (h : heap) : value * heap :=
  let '(arr, h1) := alloc (array elements) h in
  operation Neither arr h1.

(** [MatchResult = PositiveMatch | NegativeMatch] *)
Inductive MatchResult : Type :=
  | PositiveMatch (result : value)
  | NegativeMatch.

(** The fields read by the destructuring [{ matches, result }]. *)
Definition matches (m : MatchResult) : value :=
  match m with
  | PositiveMatch _ => VBool true
  | NegativeMatch => VBool false
  end.

Definition result_of (m : MatchResult) : value :=
  match m with
  | PositiveMatch r => r
  | NegativeMatch => VUndefined
  end.

(** How one pass through the body of the [for] loop ends. *)
Inductive completion : Type :=
  | Continue
  | Return (m : MatchResult)
  | Raise (e : exn).

Definition try {A : Type} (m : outcome A) (k : A -> completion) : completion :=
  match m with
  | Ok a => k a
  | Throw e => Raise e
  end.

Notation "x <~ m ;; k" := (try m (fun x => k))
  (at level 100, m at next level, right associativity).

(** The body of the loop of [when] at one index, with [p = pattern[i]]
    and [v = values[i]].  When no [case] of the [switch] applies, control
    reaches the literal comparison that follows it. *)
Definition position (h : heap) (p v : value) : completion :=
  if strict_eq p WILDCARD_VALUE then Continue
  else
    let literal :=
      if strict_neq p v then Return NegativeMatch else Continue in
    if truthy (get_opt h p "operator") then
      operator <~ get h p "operator" ;;
      elements <~ get h p "elements" ;;
      if strict_eq operator (VString "either") then
        found <~ array_some h elements (fun elem => strict_eq elem v) ;;
        if found then Continue else Return NegativeMatch
      else if strict_eq operator (VString "neither") then
        absent <~ array_every h elements (fun elem => strict_neq elem v) ;;
        if absent then Continue else Return NegativeMatch
      else literal
    else literal.

(** [xs[i]]: reading past the end of an array gives [undefined]. *)
Definition index (xs : list value) (i : nat) : value := default VUndefined (xs !! i).

(** The loop [for (let i = 0; i < pattern.length; ++i)], entered at index
    [i] with [n] iterations left, followed by the final [return]. *)
Fixpoint when_loop (h : heap) (pattern : list value) (result : value)
    (values : list value) (n i : nat) : outcome MatchResult :=
  match n with
  | O => Ok (PositiveMatch result)
  | S n' =>
      match position h (index pattern i) (index values i) with
      | Continue => when_loop h pattern result values n' (S i)
      | Return m => Ok m
      | Raise e => Throw e
      end
  end.

(** A matcher is the function returned by [when]; it reads the heap as it
    is when the matcher is called. *)
Definition Matcher : Type := heap -> list value -> outcome MatchResult.

Definition when (pattern : list value) (result : value) : Matcher :=
  fun h values =>
    if negb (Nat.eqb (List.length pattern) (List.length values)) then Ok NegativeMatch
    else when_loop h pattern result values (List.length pattern) 0.

(** [whens.map((when) => when(values))]: every arm is called, in order;
    the first exception ends the call. *)
Fixpoint map_arms (h : heap) (values : list value) (whens : list Matcher)
    : outcome (list MatchResult) :=
  match whens with
  | [] => Ok []
  | w :: ws =>
      m <-- w h values ;;
      ms <-- map_arms h values ws ;;
      Ok (m :: ms)
  end.

(** The callback of [find]: [({ matches, result }) => matches && result]. *)
Definition selected (m : MatchResult) : bool := truthy (js_and (matches m) (result_of m)).

(** [match(...values)(...whens)] *)
Definition match_ (values : list value) (whens : list Matcher) (h : heap) : outcome value :=
  ms <-- map_arms h values whens ;;
  Ok match find selected ms with
     | Some m => result_of m
     | None => VUndefined
     end.

(** The exported alias of the wildcard. *)
Definition _' : value := WILDCARD_VALUE.


(** ** The loops with an explicit step budget

    The same two functions with the loop guard [i < pattern.length]
    evaluated at every iteration and a budget of iterations: [None] means
    that the budget ran out before the call returned. *)

Module Fuel.

Fixpoint for_loop (fuel : nat) (h : heap) (pattern : list value) (result : value)
    (values : list value) (i : nat) : option (outcome MatchResult) :=
  match fuel with
  | O => None
  | S fuel' =>
      if Nat.ltb i (List.length pattern) then
        match position h (index pattern i) (index values i) with
        | Continue => for_loop fuel' h pattern result values (S i)
        | Return m => Some (Ok m)
        | Raise e => Some (Throw e)
        end
      else Some (Ok (PositiveMatch result))
  end.

Definition FMatcher : Type := nat -> heap -> list value -> option (outcome MatchResult).

Definition when (pattern : list value) (result : value) : FMatcher :=
  fun fuel h values =>
    if negb (Nat.eqb (List.length pattern) (List.length values)) then Some (Ok NegativeMatch)
    else for_loop fuel h pattern result values 0.

Fixpoint map_arms (fuel : nat) (h : heap) (values : list value) (whens : list FMatcher)
    : option (outcome (list MatchResult)) :=
  match whens with
  | [] => Some (Ok [])
  | w :: ws =>
      match w fuel h values with
      | None => None
      | Some (Throw e) => Some (Throw e)
      | Some (Ok m) =>
          match map_arms fuel h values ws with
          | None => None
          | Some (Throw e) => Some (Throw e)
          | Some (Ok ms) => Some (Ok (m :: ms))
          end
      end
  end.

Definition match_ (fuel : nat) (values : list value) (whens : list FMatcher) (h : heap)
    : option (outcome value) :=
  match map_arms fuel h values whens with
  | None => None
  | Some (Throw e) => Some (Throw e)
  | Some (Ok ms) =>
      Some (Ok match find selected ms with
               | Some m => result_of m
               | None => VUndefined
               end)
  end.

Definition arms_of (prs : list (list value * value)) : list FMatcher :=
  map (fun pr => when pr.1 pr.2) prs.

End Fuel.

(** ** Vocabulary of the statements *)

(** Which branch of the loop body a pattern element takes; the tests are
    those of [position], in its order. *)
Inductive kind : Type := KWildcard | KEither | KNeither | KLiteral.

Definition classify (h : heap) (p : value) : kind :=
  if strict_eq p WILDCARD_VALUE then KWildcard
  else if truthy (get_opt h p "operator") then
    if strict_eq (get_opt h p "operator") (VString "either") then KEither
    else if strict_eq (get_opt h p "operator") (VString "neither") then KNeither
    else KLiteral
  else KLiteral.

(** [d] is, in heap [h], an object [{ operator: op, elements }] whose
    [elements] is an array holding [els]. *)
Definition descriptor_at (h : heap) (d : value) (op : Operator) (els : list value) : Prop :=
  exists l la o oa,
    d = VRef l /\ h !! l = Some o /\
    props o !! "operator" = Some (operator_tag op) /\
    props o !! "elements" = Some (VRef la) /\
    h !! la = Some oa /\ items oa = Some els.

(** The documented pattern elements: the wildcard, a literal (a value
    showing no truthy [operator]) and a descriptor built like those of
    [either] and [neither]. *)
Inductive documented (h : heap) : value -> Prop :=
  | documented_wildcard : documented h _'
  | documented_literal p :
      truthy (get_opt h p "operator") = false -> documented h p
  | documented_descriptor d op els :
      descriptor_at h d op els -> documented h d.

(** The constructor named by a tag. *)
Definition construct (op : Operator) : list value -> heap -> value * heap :=
  match op with
  | Either => either
  | Neither => neither
  end.

(** What a descriptor accepts: [either] some listed element strictly
    equal to the value, [neither] no such element. *)
Definition accepts (op : Operator) (els : list value) (v : value) : Prop :=
  match op with
  | Either => exists x, x ∈ els /\ strict_eq x v = true
  | Neither => forall x, x ∈ els -> strict_eq x v = false
  end.

(** An outcome that [match] selects: positive with a truthy result. *)
Definition qualifies (m : MatchResult) : Prop :=
  exists r, m = PositiveMatch r /\ truthy r = true.

(** The arms built from a list of pattern/result pairs. *)
Definition arms_of (prs : list (list value * value)) : list Matcher :=
  map (fun pr => when pr.1 pr.2) prs.

(** The number literals of the examples. *)
Definition num (z : Z) : value := VNumber (number_of_Z z).

(** * Properties *)

(** ** Strict equality *)

Lemma SFeqb_true (x y : spec_float) :
  SFeqb x y = true ->
  x = y \/ exists s t, x = S754_zero s /\ y = S754_zero t.
Proof.
  unfold SFeqb.
  destruct x as [s| s | |s m e], y as [t|t| |t n f]; simpl; try discriminate;
    try (destruct s; discriminate); try (destruct t; discriminate).
  - intros _. right. eauto.
  - destruct s, t; try discriminate; intros _; now left.
  - destruct s, t; try discriminate;
      destruct (Z.compare_spec e f) as [->| |]; try discriminate;
      change (Pos.compare_cont Eq m n) with (Pos.compare m n);
      destruct (Pos.compare_spec m n) as [->| |]; try discriminate;
      intros _; now left.
Qed.

Lemma SFeqb_nan_l (y : spec_float) : SFeqb S754_nan y = false.
Proof. reflexivity. Qed.

Lemma SFeqb_nan_r (x : spec_float) : SFeqb x S754_nan = false.
Proof. now destruct x. Qed.

Lemma strict_eq_type (a b : value) :
  strict_eq a b = true -> type_of a = type_of b.
Proof. destruct a, b; simpl; congruence. Qed.

Lemma strict_eq_ref (l : loc) (v : value) :
  strict_eq (VRef l) v = true <-> v = VRef l.
Proof.
  destruct v; simpl; try (split; congruence).
  rewrite Pos.eqb_eq. split; congruence.
Qed.

Lemma strict_eq_string (s : string) (v : value) :
  strict_eq (VString s) v = true <-> v = VString s.
Proof.
  destruct v; simpl; try (split; congruence).
  rewrite String.eqb_eq. split; congruence.
Qed.

Lemma strict_eq_string_l (s : string) (p : value) :
  strict_eq p (VString s) = true <-> p = VString s.
Proof.
  destruct p; simpl; try (split; congruence).
  rewrite String.eqb_eq. split; congruence.
Qed.

(** Apart from the two zeros, strictly equal values are the same value. *)
Lemma strict_eq_true (a b : value) :
  strict_eq a b = true ->
  a = b \/ exists s t, a = VNumber (S754_zero s) /\ b = VNumber (S754_zero t).
Proof.
  destruct a, b; simpl; try discriminate; auto.
  - intros H%Bool.eqb_prop. left; congruence.
  - intros [->|(s & t & -> & ->)]%SFeqb_true; eauto.
  - intros H%Z.eqb_eq. left; congruence.
  - intros H%String.eqb_eq. left; congruence.
  - intros H%Pos.eqb_eq. left; congruence.
  - intros H%Pos.eqb_eq. left; congruence.
Qed.

(** Every value other than NaN is strictly equal to itself. *)
Lemma strict_eq_refl (a : value) :
  a <> VNumber S754_nan -> strict_eq a a = true.
Proof.
  destruct a; simpl; intros Hn; auto.
  - now destruct b.
  - unfold SFeqb. destruct x as [[]|[]| |[] m e]; simpl; try reflexivity;
      try congruence; now rewrite Z.compare_refl, Pos.compare_cont_refl.
  - apply Z.eqb_refl.
  - apply String.eqb_refl.
  - apply Pos.eqb_refl.
  - apply Pos.eqb_refl.
Qed.

(** ** Reading the heap *)

Lemma get_opt_property (h : heap) (p : value) (key : string) :
  get_opt h p key = property h p key.
Proof. now destruct p. Qed.

Lemma get_truthy (h : heap) (p : value) (key key' : string) :
  truthy (get_opt h p key) = true -> get h p key' = Ok (get_opt h p key').
Proof. destruct p; simpl; congruence. Qed.

Lemma property_primitive (h : heap) (p : value) (key : string) :
  type_of p <> TObject -> get_opt h p key = VUndefined.
Proof. destruct p; simpl; congruence. Qed.

(** ** One position *)

Lemma position_wildcard (h : heap) (v : value) : position h _' v = Continue.
Proof. reflexivity. Qed.

Lemma position_classify_literal (h : heap) (p v : value) :
  classify h p = KLiteral ->
  position h p v = if strict_eq p v then Continue else Return NegativeMatch.
Proof.
  unfold classify, position, strict_neq.
  destruct (strict_eq p WILDCARD_VALUE); [discriminate|].
  destruct (truthy (get_opt h p "operator")) eqn:Ht.
  - rewrite (get_truthy _ _ _ "operator" Ht), (get_truthy _ _ _ "elements" Ht).
    simpl.
    destruct (strict_eq (get_opt h p "operator") (VString "either")); [discriminate|].
    destruct (strict_eq (get_opt h p "operator") (VString "neither")); [discriminate|].
    intros _. now destruct (strict_eq p v).
  - intros _. now destruct (strict_eq p v).
Qed.

Lemma descriptor_reads (h : heap) (d : value) (op : Operator) (els : list value) :
  descriptor_at h d op els ->
  strict_eq d WILDCARD_VALUE = false /\
  get_opt h d "operator" = operator_tag op /\
  exists a, get h d "elements" = Ok a /\ array_items h a = Ok els.
Proof.
  intros (l & la & o & oa & -> & Hl & Hop & Hel & Hla & Hit).
  split; [reflexivity|]. split.
  - simpl. now rewrite Hl, Hop.
  - exists (VRef la). simpl. rewrite Hl, Hel, Hla, Hit. now split.
Qed.

Lemma position_descriptor (h : heap) (d : value) (op : Operator) (els : list value) (v : value) :
  descriptor_at h d op els ->
  position h d v =
    match op with
    | Either =>
        if existsb (fun elem => strict_eq elem v) els then Continue
        else Return NegativeMatch
    | Neither =>
        if forallb (fun elem => strict_neq elem v) els then Continue
        else Return NegativeMatch
    end.
Proof.
  intros Hd. destruct (descriptor_reads _ _ _ _ Hd) as (Hw & Hop & a & Ha & Hit).
  unfold position. rewrite Hw.
  assert (Ht : truthy (get_opt h d "operator") = true)
    by (rewrite Hop; now destruct op).
  rewrite Ht, (get_truthy _ _ _ "operator" Ht), Hop, Ha. simpl.
  unfold array_some, array_every. rewrite Hit.
  now destruct op.
Qed.

Lemma position_return (h : heap) (p v : value) (m : MatchResult) :
  position h p v = Return m -> m = NegativeMatch.
Proof.
  unfold position, try, strict_neq.
  repeat match goal with
         | |- context [match ?x with _ => _ end] => destruct x; simpl
         end; congruence.
Qed.

(** ** Descriptors built by the constructors *)

Lemma alloc_inv (o : object) (h : heap) (v : value) (h' : heap) :
  alloc o h = (v, h') ->
  exists l, v = VRef l /\ h !! l = None /\ h' = <[l := o]> h.
Proof.
  unfold alloc. intros [= <- <-]. exists (fresh (dom h)).
  split; [reflexivity|]. split; [|reflexivity].
  apply not_elem_of_dom, is_fresh.
Qed.

Lemma operation_descriptor (op : Operator) (els : list value)
    (h h1 h2 h3 : heap) (arr d : value) :
  alloc (array els) h = (arr, h1) ->
  operation op arr h1 = (d, h2) ->
  h2 ⊆ h3 ->
  descriptor_at h3 d op els.
Proof.
  intros (la & -> & Hla & ->)%alloc_inv (l & -> & Hl & ->)%alloc_inv Hsub.
  assert (l <> la) by (intros ->; now rewrite lookup_insert_eq in Hl).
  eexists l, la, _, (array els). split; [reflexivity|]. split.
  { eapply lookup_weaken; [|exact Hsub]. apply lookup_insert_eq. }
  split; [apply lookup_insert_eq|]. split.
  { cbn [props]. rewrite lookup_insert_ne by discriminate. apply lookup_insert_eq. }
  split; [|reflexivity].
  eapply lookup_weaken; [|exact Hsub].
  rewrite lookup_insert_ne by assumption. apply lookup_insert_eq.
Qed.

Lemma either_descriptor (els : list value) (h h1 h2 : heap) (d : value) :
  either els h = (d, h1) -> h1 ⊆ h2 -> descriptor_at h2 d Either els.
Proof.
  unfold either. destruct (alloc (array els) h) as [arr h0] eqn:Ha.
  intros Hop Hsub. eapply operation_descriptor; eassumption.
Qed.

Lemma neither_descriptor (els : list value) (h h1 h2 : heap) (d : value) :
  neither els h = (d, h1) -> h1 ⊆ h2 -> descriptor_at h2 d Neither els.
Proof.
  unfold neither. destruct (alloc (array els) h) as [arr h0] eqn:Ha.
  intros Hop Hsub. eapply operation_descriptor; eassumption.
Qed.

(** The constructors only add objects: what the heap held is unchanged. *)
Lemma alloc_extends (o : object) (h h' : heap) (v : value) :
  alloc o h = (v, h') -> h ⊆ h'.
Proof. intros (l & -> & Hl & ->)%alloc_inv. now apply insert_subseteq. Qed.

(** ** Unrolling the loop of [when] *)

Lemma when_loop_shift (h : heap) (p : value) (ps : list value) (r v : value)
    (vs : list value) (n i : nat) :
  when_loop h (p :: ps) r (v :: vs) n (S i) = when_loop h ps r vs n i.
Proof.
  revert i. induction n as [|n IH]; intros i; simpl; [reflexivity|].
  change (index (p :: ps) (S i)) with (index ps i).
  change (index (v :: vs) (S i)) with (index vs i).
  now rewrite IH.
Qed.

Lemma when_length_ne (pattern : list value) (r : value) (h : heap) (values : list value) :
  List.length pattern <> List.length values ->
  when pattern r h values = Ok NegativeMatch.
Proof.
  intros Hne. unfold when.
  now destruct (Nat.eqb_spec (List.length pattern) (List.length values)).
Qed.

Lemma when_nil (r : value) (h : heap) : when [] r h [] = Ok (PositiveMatch r).
Proof. reflexivity. Qed.

Lemma when_cons (p : value) (ps : list value) (r : value) (h : heap)
    (v : value) (vs : list value) :
  List.length ps = List.length vs ->
  when (p :: ps) r h (v :: vs) =
    match position h p v with
    | Continue => when ps r h vs
    | Return m => Ok m
    | Raise e => Throw e
    end.
Proof.
  intros Hlen. unfold when. simpl. rewrite Hlen, Nat.eqb_refl. simpl.
  change (index (p :: ps) 0) with p. change (index (v :: vs) 0) with v.
  now rewrite when_loop_shift.
Qed.

(** An arm is positive exactly when every position continues. *)
Lemma when_all_continue (h : heap) (r : value) (pattern values : list value) :
  Forall2 (fun p v => position h p v = Continue) pattern values ->
  when pattern r h values = Ok (PositiveMatch r).
Proof.
  induction 1 as [|p v ps vs Hp Hrest IH]; [reflexivity|].
  rewrite when_cons by (eapply Forall2_length; eassumption).
  now rewrite Hp.
Qed.

(** A position that does not continue makes the arm negative, provided
    no earlier position raised. *)
Lemma when_negative_at (h : heap) (r p v : value) (pre post vpre vpost : list value) :
  Forall2 (fun q w => forall e, position h q w <> Raise e) pre vpre ->
  List.length post = List.length vpost ->
  position h p v = Return NegativeMatch ->
  when (pre ++ p :: post) r h (vpre ++ v :: vpost) = Ok NegativeMatch.
Proof.
  intros Hpre Hpost Hp.
  induction Hpre as [|q w qs ws Hq Hrest IH]; simpl.
  - rewrite when_cons by assumption. now rewrite Hp.
  - rewrite when_cons.
    + destruct (position h q w) as [|m|e] eqn:Hqw.
      * exact IH.
      * now rewrite (position_return _ _ _ _ Hqw).
      * now destruct (Hq e).
    + rewrite !length_app. simpl.
      rewrite (Forall2_length _ _ _ Hrest). lia.
Qed.

(** ** The arm builder [when] *)

(** C2: when the value tuple and the pattern tuple differ in length, the
    matcher returns the negative outcome; it does so as a normal return,
    not as an exception. *)
Theorem when_arity_mismatch (pattern : list value) (result : value)
    (h : heap) (values : list value) :
  List.length values <> List.length pattern ->
  when pattern result h values = Ok NegativeMatch.
Proof. intros Hne. apply when_length_ne. congruence. Qed.

Lemma when_arity_mismatch_witness :
  List.length (@nil value) <> List.length [num 1; num 2; num 3; num 4] /\
  when [num 1; num 2; num 3; num 4] (VString "result") ∅ [] = Ok NegativeMatch.
Proof.
  split; [simpl; lia|]. apply when_arity_mismatch. simpl; lia.
Defined.

(** C3: when pattern and values have the same length and, at every
    position, the pattern element is a literal strictly equal to the
    value, the matcher returns the positive outcome carrying the result
    given to [when]. *)
Theorem when_literal_equal (h : heap) (pattern values : list value) (result : value) :
  Forall2 (fun p v => classify h p = KLiteral /\ strict_eq p v = true)
    pattern values ->
  when pattern result h values = Ok (PositiveMatch result).
Proof.
  intros Hall. apply when_all_continue.
  induction Hall as [|p v ps vs [Hk Heq] _ IH]; constructor; [|exact IH].
  now rewrite (position_classify_literal _ _ _ Hk), Heq.
Qed.

Lemma when_literal_equal_witness :
  Forall2 (fun p v => classify ∅ p = KLiteral /\ strict_eq p v = true)
    [num 1; num 2; num 3] [num 1; num 2; num 3] /\
  when [num 1; num 2; num 3] (VString "R") ∅ [num 1; num 2; num 3]
    = Ok (PositiveMatch (VString "R")).
Proof.
  assert (H : Forall2 (fun p v => classify ∅ p = KLiteral /\ strict_eq p v = true)
                [num 1; num 2; num 3] [num 1; num 2; num 3])
    by (repeat constructor).
  split; [exact H|]. exact (when_literal_equal ∅ _ _ (VString "R") H).
Defined.

(** C4: the wildcard matches whatever value stands at its position: its
    position always continues, [when([_], r)] is positive with [r] on
    every one-value tuple, and replacing the value under a wildcard never
    changes what the matcher returns. *)
Theorem wildcard_matches_any (h : heap) (result : value) :
  (forall v, position h _' v = Continue) /\
  (forall v, when [_'] result h [v] = Ok (PositiveMatch result)) /\
  (forall (pattern values : list value) (i : nat) (v : value),
      pattern !! i = Some _' ->
      List.length pattern = List.length values ->
      when pattern result h (<[i := v]> values) = when pattern result h values).
Proof.
  split; [intros v; apply position_wildcard|]. split.
  - intros v. rewrite when_cons by reflexivity. now rewrite position_wildcard.
  - intros pattern. induction pattern as [|p ps IH]; intros values i v Hi Hlen.
    + discriminate.
    + destruct values as [|w ws]; [discriminate|].
      injection Hlen as Hlen. destruct i as [|i]; simpl in *.
      * injection Hi as ->.
        rewrite !when_cons by assumption. now rewrite !position_wildcard.
      * rewrite !when_cons by (rewrite ?length_insert; assumption).
        destruct (position h p w); [|reflexivity..].
        now apply IH.
Qed.

Lemma wildcard_matches_any_witness :
  [num 1; _'] !! 1%nat = Some _' /\
  List.length [num 1; _'] = List.length [num 1; VString "a"] /\
  when [num 1; _'] (VString "R") ∅ (<[1%nat := VNull]> [num 1; VString "a"])
    = when [num 1; _'] (VString "R") ∅ [num 1; VString "a"].
Proof.
  split; [reflexivity|]. split; [reflexivity|].
  destruct (wildcard_matches_any ∅ (VString "R")) as (_ & _ & Hany).
  apply Hany; reflexivity.
Defined.

(** ** Descriptors *)

Lemma existsb_accepts (els : list value) (v : value) :
  existsb (fun elem => strict_eq elem v) els = true <-> accepts Either els v.
Proof.
  rewrite existsb_exists. simpl.
  split; intros (x & Hx & Heq); exists x; split; auto; now apply list_elem_of_In.
Qed.

Lemma forallb_accepts (els : list value) (v : value) :
  forallb (fun elem => strict_neq elem v) els = true <-> accepts Neither els v.
Proof.
  rewrite forallb_forall. unfold strict_neq. simpl.
  split; intros H x Hx.
  - apply list_elem_of_In, H in Hx. now apply negb_true_iff.
  - apply list_elem_of_In, H in Hx. now apply negb_true_iff.
Qed.

Lemma descriptor_continue (h : heap) (d : value) (op : Operator)
    (els : list value) (v : value) :
  descriptor_at h d op els ->
  (position h d v = Continue <-> accepts op els v) /\
  (~ accepts op els v -> position h d v = Return NegativeMatch).
Proof.
  intros Hd. rewrite (position_descriptor _ _ _ _ v Hd).
  destruct op.
  - rewrite <- existsb_accepts.
    destruct (existsb _ els); split; try easy; intros []; reflexivity.
  - rewrite <- forallb_accepts.
    destruct (forallb _ els); split; try easy; intros []; reflexivity.
Qed.

(** C5: for a descriptor built by [either], the position matches exactly
    when some listed element is strictly equal to the value; for one built
    by [neither], exactly when no listed element is.  A descriptor that
    does not match makes the whole arm negative.  With no elements,
    [either()] matches no value and [neither()] matches every value. *)
Theorem descriptor_position (op : Operator) (els : list value)
    (h h1 h2 : heap) (d v : value) :
  construct op els h = (d, h1) ->
  h1 ⊆ h2 ->
  (position h2 d v = Continue <-> accepts op els v) /\
  (~ accepts op els v ->
   forall (r : value) (pre post vpre vpost : list value),
     Forall2 (fun q w => forall e, position h2 q w <> Raise e) pre vpre ->
     List.length post = List.length vpost ->
     when (pre ++ d :: post) r h2 (vpre ++ v :: vpost) = Ok NegativeMatch) /\
  (els = [] -> (position h2 d v = Continue <-> op = Neither)).
Proof.
  intros Hc Hsub.
  assert (Hd : descriptor_at h2 d op els).
  { destruct op; simpl in Hc;
      [eapply either_descriptor | eapply neither_descriptor]; eassumption. }
  destruct (descriptor_continue _ _ _ _ v Hd) as [Hiff Hneg].
  split; [exact Hiff|]. split.
  - intros Hno r pre post vpre vpost Hpre Hpost.
    apply when_negative_at; auto.
  - intros ->. rewrite Hiff. destruct op; simpl.
    + split; [intros (x & Hx & _); inversion Hx | discriminate].
    + split; [reflexivity | intros _ x Hx; inversion Hx].
Qed.

Lemma descriptor_position_witness :
  let d := (either [num 1; num 2] ∅).1 in
  let h1 := (either [num 1; num 2] ∅).2 in
  construct Either [num 1; num 2] ∅ = (d, h1) /\
  h1 ⊆ h1 /\
  (position h1 d (num 2) = Continue <-> accepts Either [num 1; num 2] (num 2)) /\
  position h1 d (num 2) = Continue.
Proof.
  intros d h1.
  assert (Hc : construct Either [num 1; num 2] ∅ = (d, h1)) by reflexivity.
  assert (Hsub : h1 ⊆ h1) by reflexivity.
  destruct (descriptor_position Either [num 1; num 2] ∅ h1 h1 d (num 2) Hc Hsub)
    as (Hiff & _ & _).
  repeat split; try apply Hiff; try reflexivity.
Defined.

(** ** Literals *)

(** C6: at a literal pattern element the position matches exactly when
    pattern element and value are strictly equal.  Strictly equal values
    have the same type and, the two zeros apart, are the same value; a
    value other than NaN equals itself; NaN equals nothing, itself
    included; references are equal only to the same reference, so two
    distinct objects are unequal even when their contents are identical. *)
Theorem literal_position (h : heap) (p v : value) :
  classify h p = KLiteral ->
  (position h p v = Continue <-> strict_eq p v = true) /\
  (strict_eq p v = false -> position h p v = Return NegativeMatch) /\
  (strict_eq p v = true ->
   type_of p = type_of v /\
   (p = v \/ exists s t, p = VNumber (S754_zero s) /\ v = VNumber (S754_zero t))) /\
  (p = v -> p <> VNumber S754_nan -> strict_eq p v = true) /\
  (p = VNumber S754_nan \/ v = VNumber S754_nan -> strict_eq p v = false) /\
  (forall l l', p = VRef l -> v = VRef l' -> l <> l' -> h !! l = h !! l' ->
                strict_eq p v = false).
Proof.
  intros Hk. rewrite (position_classify_literal _ _ v Hk).
  split; [destruct (strict_eq p v); easy|].
  split; [now intros ->|].
  split; [intros Heq; split; [now apply strict_eq_type | now apply strict_eq_true]|].
  split; [intros <-; apply strict_eq_refl|].
  split.
  - intros [-> | ->]; [now destruct v|].
    destruct p; simpl; auto using SFeqb_nan_r.
  - intros l l' -> -> Hne _. simpl. now apply Pos.eqb_neq.
Qed.

Lemma literal_position_witness :
  classify ∅ (VString "foo") = KLiteral /\
  (position ∅ (VString "foo") (VString "foo") = Continue
   <-> strict_eq (VString "foo") (VString "foo") = true) /\
  position ∅ (VString "foo") (VString "foo") = Continue.
Proof.
  assert (Hk : classify ∅ (VString "foo") = KLiteral) by reflexivity.
  destruct (literal_position ∅ (VString "foo") (VString "foo") Hk) as (Hiff & _).
  split; [exact Hk|]. split; [exact Hiff|]. apply Hiff. reflexivity.
Defined.

(** C10: a pattern element whose [operator] is truthy but is neither
    ['either'] nor ['neither'] leaves the [switch] without a case and is
    compared as a literal: the position matches exactly when the value is
    the same reference, and the matcher returns normally. *)
Theorem unknown_operator_is_literal (h : heap) (l : loc) (o : object)
    (op v result : value) :
  h !! l = Some o ->
  props o !! "operator" = Some op ->
  truthy op = true ->
  strict_eq op (VString "either") = false ->
  strict_eq op (VString "neither") = false ->
  (position h (VRef l) v = Continue <-> v = VRef l) /\
  (v <> VRef l -> position h (VRef l) v = Return NegativeMatch) /\
  when [VRef l] result h [v] =
    Ok (if strict_eq (VRef l) v then PositiveMatch result else NegativeMatch).
Proof.
  intros Hl Hop Ht He Hn.
  assert (Hk : classify h (VRef l) = KLiteral).
  { unfold classify. simpl. now rewrite Hl, Hop; simpl; rewrite Ht, He, Hn. }
  pose proof (position_classify_literal _ _ v Hk) as Hpos.
  rewrite when_cons by reflexivity. rewrite Hpos, <- strict_eq_ref.
  destruct (strict_eq (VRef l) v); repeat split; try easy.
Qed.

Lemma unknown_operator_is_literal_witness :
  let o := Object {[ "operator" := VString "both" ]} None in
  let h : heap := {[ 1%positive := o ]} in
  h !! 1%positive = Some o /\
  props o !! "operator" = Some (VString "both") /\
  truthy (VString "both") = true /\
  strict_eq (VString "both") (VString "either") = false /\
  strict_eq (VString "both") (VString "neither") = false /\
  when [VRef 1] (VString "R") h [VRef 1] = Ok (PositiveMatch (VString "R")).
Proof.
  intros o h.
  assert (H1 : h !! 1%positive = Some o) by reflexivity.
  assert (H2 : props o !! "operator" = Some (VString "both")) by reflexivity.
  repeat (split; [reflexivity|]).
  exact (proj2 (proj2 (unknown_operator_is_literal h 1 o (VString "both")
           (VRef 1) (VString "R") H1 H2 eq_refl eq_refl eq_refl))).
Defined.

(** ** The wildcard sentinel *)

(** C9, as the code has it: the wildcard test is strict equality with the
    sentinel string, so a pattern element is the wildcard exactly when it
    is a string with the sentinel's contents, the exported alias being one
    such; the wildcard matches every value, and every other primitive is
    compared as a literal. *)
Theorem wildcard_is_the_sentinel_string (h : heap) (p : value) :
  (classify h p = KWildcard <-> p = VString "__primitive__match__wildcard__value__") /\
  (p = VString "__primitive__match__wildcard__value__" ->
   p = _' /\ forall v, position h p v = Continue) /\
  (p <> VString "__primitive__match__wildcard__value__" ->
   type_of p <> TObject ->
   forall v, position h p v = Continue <-> strict_eq p v = true).
Proof.
  assert (Hw : classify h p = KWildcard <-> strict_eq p WILDCARD_VALUE = true).
  { unfold classify. destruct (strict_eq p WILDCARD_VALUE); [easy|].
    repeat match goal with
           | |- context [if ?b then _ else _] => destruct b
           end; easy. }
  split; [rewrite Hw; apply strict_eq_string_l|]. split.
  - intros ->. split; [reflexivity|]. intros v. apply position_wildcard.
  - intros Hne Hprim v.
    assert (Hk : classify h p = KLiteral).
    { unfold classify.
      destruct (strict_eq p WILDCARD_VALUE) eqn:E.
      - now apply strict_eq_string_l in E.
      - now rewrite (property_primitive _ _ _ Hprim). }
    rewrite (position_classify_literal _ _ v Hk).
    now destruct (strict_eq p v).
Qed.

Lemma wildcard_is_the_sentinel_string_witness :
  VString "_" <> VString "__primitive__match__wildcard__value__" /\
  type_of (VString "_") <> TObject /\
  (position ∅ (VString "_") (num 5) = Continue
   <-> strict_eq (VString "_") (num 5) = true).
Proof.
  assert (H1 : VString "_" <> VString "__primitive__match__wildcard__value__")
    by discriminate.
  assert (H2 : type_of (VString "_") <> TObject) by discriminate.
  split; [exact H1|]. split; [exact H2|].
  exact (proj2 (proj2 (wildcard_is_the_sentinel_string ∅ (VString "_")))
           H1 H2 (num 5)).
Defined.

(** C9, as stated, fails: a string that the caller assembles without ever
    touching the exported alias takes the wildcard branch and matches a
    value it is not equal to. *)
Lemma caller_built_string_is_wildcard :
  let s := String.append "__primitive__match__" "wildcard__value__" in
  classify ∅ (VString s) = KWildcard /\
  strict_eq (VString s) (num 5) = false /\
  position ∅ (VString s) (num 5) = Continue /\
  when [VString s] (VString "R") ∅ [num 5] = Ok (PositiveMatch (VString "R")).
Proof. repeat split. Qed.

(** ** No exception on documented input *)

Lemma documented_no_raise (h : heap) (p : value) :
  documented h p -> forall v e, position h p v <> Raise e.
Proof.
  intros [|q Hq|d op els Hd] v e.
  - now rewrite position_wildcard.
  - unfold position, strict_neq. rewrite Hq.
    destruct (strict_eq q WILDCARD_VALUE); [easy|].
    now destruct (strict_eq q v).
  - rewrite (position_descriptor _ _ _ _ v Hd).
    destruct op; [destruct (existsb _ els) | destruct (forallb _ els)]; easy.
Qed.

Lemma when_no_raise (h : heap) (r : value) (pattern : list value) :
  Forall (fun p => forall v e, position h p v <> Raise e) pattern ->
  forall values, exists m, when pattern r h values = Ok m.
Proof.
  induction 1 as [|p ps Hp _ IH]; intros values.
  - destruct values; eexists; reflexivity.
  - destruct values as [|v vs]; [eexists; reflexivity|].
    destruct (decide (List.length ps = List.length vs)) as [Hlen|Hlen].
    + rewrite when_cons by assumption.
      destruct (position h p v) as [|m|e] eqn:E; eauto.
      now destruct (Hp v e).
    + exists NegativeMatch. apply when_length_ne. simpl. congruence.
Qed.

Lemma map_arms_ok (h : heap) (values : list value) (whens : list Matcher)
    (ms : list MatchResult) :
  Forall2 (fun w m => w h values = Ok m) whens ms ->
  map_arms h values whens = Ok ms.
Proof.
  induction 1 as [|w m ws ms Hw _ IH]; [reflexivity|].
  simpl. now rewrite Hw, IH.
Qed.

(** C7: on documented input nothing raises.  The constructors are total
    and what they build is a documented pattern element; a matcher over
    documented pattern elements returns an outcome for every value tuple;
    [match] over such matchers returns a value or [undefined]. *)
Theorem no_exception (h : heap) :
  (forall op els h0 d h1,
      construct op els h0 = (d, h1) -> h1 ⊆ h -> documented h d) /\
  (forall pattern result values,
      Forall (documented h) pattern ->
      exists m, when pattern result h values = Ok m) /\
  (forall values prs,
      Forall (fun pr => Forall (documented h) pr.1) prs ->
      exists r, match_ values (arms_of prs) h = Ok r).
Proof.
  assert (Hwhen : forall pattern result values,
             Forall (documented h) pattern ->
             exists m, when pattern result h values = Ok m).
  { intros pattern result values Hdoc. apply when_no_raise.
    eapply Forall_impl; [exact Hdoc|]. apply documented_no_raise. }
  split; [|split; [exact Hwhen|]].
  - intros op els h0 d h1 Hc Hsub. apply (documented_descriptor h d op els).
    destruct op; simpl in Hc;
      [eapply either_descriptor | eapply neither_descriptor]; eassumption.
  - intros values prs Hall.
    assert (Hms : exists ms, Forall2 (fun w m => w h values = Ok m) (arms_of prs) ms).
    { induction Hall as [|[p r] prs Hp _ [ms IH]]; [exists []; constructor|].
      destruct (Hwhen p r values Hp) as [m Hm].
      exists (m :: ms). now constructor. }
    destruct Hms as [ms Hms]. unfold match_.
    rewrite (map_arms_ok _ _ _ _ Hms). simpl. eauto.
Qed.

Lemma no_exception_witness :
  let d := (neither [num 1; num 2] ∅).1 in
  let h := (neither [num 1; num 2] ∅).2 in
  construct Neither [num 1; num 2] ∅ = (d, h) /\ h ⊆ h /\
  exists m, when [d; _'; VNull] (VString "R") h [num 3; num 4; num 5] = Ok m.
Proof.
  intros d h.
  assert (Hc : construct Neither [num 1; num 2] ∅ = (d, h)) by reflexivity.
  assert (Hsub : h ⊆ h) by reflexivity.
  destruct (no_exception h) as (Hcons & Hwhen & _).
  split; [exact Hc|]. split; [exact Hsub|].
  apply Hwhen.
  constructor; [exact (Hcons _ _ _ _ _ Hc Hsub)|].
  constructor; [apply documented_wildcard|].
  constructor; [apply documented_literal; reflexivity|].
  constructor.
Defined.

(** ** The dispatcher [match] *)

Lemma selected_qualifies (m : MatchResult) : selected m = true <-> qualifies m.
Proof.
  unfold selected, qualifies, js_and. destruct m as [r|]; simpl.
  - split; [eauto | now intros (r' & [= <-] & Hr)].
  - split; [discriminate | now intros (r' & [=] & _)].
Qed.

Lemma not_selected (m : MatchResult) : ~ qualifies m -> selected m = false.
Proof.
  rewrite <- selected_qualifies. now destruct (selected m).
Qed.

Lemma find_selected_app (ms1 ms2 : list MatchResult) :
  find selected (ms1 ++ ms2) =
    match find selected ms1 with
    | Some m => Some m
    | None => find selected ms2
    end.
Proof.
  induction ms1 as [|m ms1 IH]; simpl; [reflexivity|].
  now destruct (selected m).
Qed.

Lemma map_arms_app (h : heap) (values : list value) (ws1 ws2 : list Matcher) :
  map_arms h values (ws1 ++ ws2) =
    (ms1 <-- map_arms h values ws1 ;;
     ms2 <-- map_arms h values ws2 ;;
     Ok (ms1 ++ ms2)).
Proof.
  induction ws1 as [|w ws1 IH]; simpl.
  - now destruct (map_arms h values ws2).
  - destruct (w h values) as [m|e]; simpl; [|reflexivity].
    rewrite IH. destruct (map_arms h values ws1) as [ms1|e]; simpl; [|reflexivity].
    now destruct (map_arms h values ws2).
Qed.

Lemma map_arms_total (h : heap) (values : list value) (ws : list Matcher) :
  Forall (fun w => exists m, w h values = Ok m) ws ->
  exists ms, map_arms h values ws = Ok ms.
Proof.
  induction 1 as [|w ws [m Hm] _ [ms IH]]; simpl; [eauto|].
  rewrite Hm, IH. simpl. eauto.
Qed.

Lemma map_arms_unselected (h : heap) (values : list value) (ws : list Matcher) :
  Forall (fun w => exists m, w h values = Ok m /\ ~ qualifies m) ws ->
  exists ms, map_arms h values ws = Ok ms /\ find selected ms = None.
Proof.
  induction 1 as [|w ws (m & Hm & Hq) _ (ms & IH & Hfind)]; simpl; [eauto|].
  rewrite Hm, IH. simpl. exists (m :: ms). split; [reflexivity|].
  simpl. now rewrite (not_selected _ Hq).
Qed.

Lemma falsy_values (r : value) :
  truthy r = false <->
  r = VUndefined \/ r = VNull \/ r = VBool false \/
  (exists s, r = VNumber (S754_zero s)) \/ r = VNumber S754_nan \/
  r = VBigInt 0 \/ r = VString "".
Proof.
  split.
  - destruct r as [| |[]|[s|s| |s m e]|n|s|i|l]; simpl; try discriminate; eauto 10.
    + rewrite negb_false_iff. intros ->%Z.eqb_eq. auto 10.
    + rewrite negb_false_iff. intros ->%String.eqb_eq. auto 10.
  - intros [->|[->|[->|[[s ->]|[->|[->| ->]]]]]]; reflexivity.
Qed.

(** C1: [match] returns the result of the first arm, in list order, whose
    outcome is positive with a truthy result; it returns [undefined] when
    no arm is such; an arm that is positive with a falsy result
    ([undefined], [null], [false], a zero, NaN, [0n] or the empty string)
    counts exactly as an arm that did not match. *)
Theorem match_first_qualifying (h : heap) (values : list value) :
  (forall (pre : list Matcher) (w : Matcher) (post : list Matcher) (r : value),
      Forall (fun w' => exists m, w' h values = Ok m /\ ~ qualifies m) pre ->
      w h values = Ok (PositiveMatch r) ->
      truthy r = true ->
      Forall (fun w' => exists m, w' h values = Ok m) post ->
      match_ values (pre ++ w :: post) h = Ok r) /\
  (forall whens : list Matcher,
      Forall (fun w' => exists m, w' h values = Ok m /\ ~ qualifies m) whens ->
      match_ values whens h = Ok VUndefined) /\
  (forall (pre : list Matcher) (w : Matcher) (post : list Matcher) (r : value),
      w h values = Ok (PositiveMatch r) ->
      truthy r = false ->
      ~ qualifies (PositiveMatch r) /\
      match_ values (pre ++ w :: post) h
        = match_ values (pre ++ (fun _ _ => Ok NegativeMatch) :: post) h) /\
  (forall r : value,
      truthy r = false <->
      r = VUndefined \/ r = VNull \/ r = VBool false \/
      (exists s, r = VNumber (S754_zero s)) \/ r = VNumber S754_nan \/
      r = VBigInt 0 \/ r = VString "").
Proof.
  split; [|split; [|split; [|exact falsy_values]]].
  - intros pre w post r Hpre Hw Hr Hpost.
    destruct (map_arms_unselected _ _ _ Hpre) as (ms1 & H1 & Hnone).
    destruct (map_arms_total _ _ _ Hpost) as (ms2 & H2).
    unfold match_. rewrite map_arms_app, H1. simpl. rewrite Hw, H2. simpl.
    rewrite find_selected_app, Hnone. simpl.
    unfold selected, js_and. simpl. now rewrite Hr.
  - intros whens Hall.
    destruct (map_arms_unselected _ _ _ Hall) as (ms & Hms & Hnone).
    unfold match_. now rewrite Hms; simpl; rewrite Hnone.
  - intros pre w post r Hw Hr. split.
    { intros (r' & [= <-] & Hr'). congruence. }
    unfold match_. rewrite !map_arms_app.
    destruct (map_arms h values pre) as [ms1|e]; simpl; [|reflexivity].
    rewrite Hw. simpl.
    destruct (map_arms h values post) as [ms2|e]; simpl; [|reflexivity].
    rewrite !find_selected_app. simpl.
    unfold selected at 2 4. unfold js_and. simpl. now rewrite Hr.
Qed.

Lemma match_first_qualifying_witness :
  Forall (fun w' => exists m, w' ∅ [VString "x"] = Ok m /\ ~ qualifies m)
    [when [_'] (num 0)] /\
  when [_'] (VString "fallback") ∅ [VString "x"]
    = Ok (PositiveMatch (VString "fallback")) /\
  truthy (VString "fallback") = true /\
  Forall (fun w' => exists m, w' ∅ [VString "x"] = Ok m) [when [num 1] (VString "A")] /\
  match_ [VString "x"]
    ([when [_'] (num 0)] ++
     when [_'] (VString "fallback") :: [when [num 1] (VString "A")]) ∅
    = Ok (VString "fallback").
Proof.
  assert (H1 : Forall (fun w' => exists m, w' ∅ [VString "x"] = Ok m /\ ~ qualifies m)
                 [when [_'] (num 0)]).
  { constructor; [|constructor].
    exists (PositiveMatch (num 0)). split; [reflexivity|].
    intros (r & [= <-] & Hr). discriminate. }
  assert (H2 : Forall (fun w' => exists m, w' ∅ [VString "x"] = Ok m)
                 [when [num 1] (VString "A")]).
  { constructor; [|constructor]. exists NegativeMatch. reflexivity. }
  split; [exact H1|]. split; [reflexivity|]. split; [reflexivity|].
  split; [exact H2|].
  exact (proj1 (match_first_qualifying ∅ [VString "x"])
           [when [_'] (num 0)] (when [_'] (VString "fallback"))
           [when [num 1] (VString "A")] (VString "fallback")
           H1 eq_refl eq_refl H2).
Defined.

(** ** Termination *)

Lemma for_loop_enough (h : heap) (pattern : list value) (r : value)
    (values : list value) (fuel i : nat) :
  i <= List.length pattern ->
  List.length pattern - i < fuel ->
  Fuel.for_loop fuel h pattern r values i
    = Some (when_loop h pattern r values (List.length pattern - i) i).
Proof.
  revert i. induction fuel as [|fuel IH]; intros i Hi Hfuel; [lia|].
  simpl. destruct (Nat.ltb_spec i (List.length pattern)) as [Hlt|Hge].
  - replace (List.length pattern - i) with (S (List.length pattern - S i)) by lia.
    simpl. destruct (position h (index pattern i) (index values i)); try reflexivity.
    apply IH; lia.
  - now replace (List.length pattern - i) with 0 by lia.
Qed.

Lemma fuel_when_enough (pattern : list value) (r : value) (fuel : nat)
    (h : heap) (values : list value) :
  List.length pattern < fuel ->
  Fuel.when pattern r fuel h values = Some (when pattern r h values).
Proof.
  intros Hfuel. unfold Fuel.when, when.
  destruct (negb _); [reflexivity|].
  rewrite for_loop_enough by lia. now rewrite Nat.sub_0_r.
Qed.

Lemma fuel_map_arms_enough (fuel : nat) (h : heap) (values : list value)
    (prs : list (list value * value)) :
  Forall (fun pr => List.length pr.1 < fuel) prs ->
  Fuel.map_arms fuel h values (Fuel.arms_of prs)
    = Some (map_arms h values (arms_of prs)).
Proof.
  induction 1 as [|[p r] prs Hp _ IH]; [reflexivity|].
  simpl in *. rewrite (fuel_when_enough p r fuel h values Hp), IH.
  destruct (when p r h values); simpl; [|reflexivity].
  now destruct (map_arms h values (arms_of prs)).
Qed.

Lemma budget_exists (prs : list (list value * value)) :
  exists fuel, Forall (fun pr => List.length pr.1 < fuel) prs.
Proof.
  induction prs as [|[p r] prs [fuel IH]]; [exists 0; constructor|].
  exists (S (Nat.max (List.length p) fuel)). constructor; [simpl; lia|].
  eapply Forall_impl; [exact IH|]. simpl. lia.
Qed.

(** C8: every call of the engine returns.  The constructors are plain
    allocations.  A matcher needs at most one loop iteration per pattern
    element: with a budget above the pattern length the budgeted loop
    returns, and returns what [when] computes.  [match] over finitely many
    such arms returns within any budget above their pattern lengths, and
    such a budget always exists. *)
Theorem engine_terminates :
  (forall op els h, exists d h', construct op els h = (d, h')) /\
  (forall pattern result h values fuel,
      List.length pattern < fuel ->
      Fuel.when pattern result fuel h values = Some (when pattern result h values)) /\
  (forall values prs h fuel,
      Forall (fun pr => List.length pr.1 < fuel) prs ->
      Fuel.match_ fuel values (Fuel.arms_of prs) h
        = Some (match_ values (arms_of prs) h)) /\
  (forall prs : list (list value * value),
      exists fuel, Forall (fun pr => List.length pr.1 < fuel) prs).
Proof.
  split; [|split; [|split; [|exact budget_exists]]].
  - intros op els h. destruct (construct op els h) as [d h'] eqn:E. eauto.
  - intros pattern result h values fuel. apply fuel_when_enough.
  - intros values prs h fuel Hall. unfold Fuel.match_, match_.
    rewrite (fuel_map_arms_enough _ _ _ _ Hall).
    now destruct (map_arms h values (arms_of prs)).
Qed.

Lemma engine_terminates_witness :
  Forall (fun pr => List.length pr.1 < 3)
    [([num 1; num 2], VString "A"); ([num 1; num 2], VString "B")] /\
  Fuel.match_ 3 [num 1; num 2]
    (Fuel.arms_of [([num 1; num 2], VString "A"); ([num 1; num 2], VString "B")]) ∅
    = Some (match_ [num 1; num 2]
              (arms_of [([num 1; num 2], VString "A"); ([num 1; num 2], VString "B")]) ∅).
Proof.
  assert (H : Forall (fun pr => List.length pr.1 < 3)
                [([num 1; num 2], VString "A"); ([num 1; num 2], VString "B")])
    by (repeat constructor).
  split; [exact H|].
  destruct engine_terminates as (_ & _ & Hmatch & _).
  exact (Hmatch _ _ ∅ 3 H).
Defined.

(** ** Scenarios of the specification and of the test suite *)

Example scenario_literals :
  when [num 1; num 2; num 3] (VString "R") ∅ [num 1; num 2; num 3]
    = Ok (PositiveMatch (VString "R")).
Proof. reflexivity. Qed.

Example scenario_mismatch :
  when [num 1; num 2; num 3; num 4] (VString "result") ∅ [num 1; num 2; num 4; num 3]
    = Ok NegativeMatch.
Proof. reflexivity. Qed.

Example scenario_wildcard :
  when [_'] (VString "R") ∅ [VString "anything"] = Ok (PositiveMatch (VString "R")).
Proof. reflexivity. Qed.

Example scenario_either :
  let '(d, h) := either [num 1; num 2] ∅ in
  when [d] (VString "R") h [num 2] = Ok (PositiveMatch (VString "R")) /\
  when [d] (VString "R") h [num 3] = Ok NegativeMatch.
Proof. split; reflexivity. Qed.

Example scenario_neither :
  let '(d, h) := neither [num 1; num 2] ∅ in
  when [d] (VString "R") h [num 3] = Ok (PositiveMatch (VString "R")) /\
  when [d] (VString "R") h [num 1] = Ok NegativeMatch.
Proof. split; reflexivity. Qed.

Example scenario_falsy_result :
  match_ [VString "x"] [when [_'] (num 0); when [_'] (VString "fallback")] ∅
    = Ok (VString "fallback").
Proof. reflexivity. Qed.

Example scenario_first_wins :
  match_ [num 1; num 2]
    [when [num 1; num 2] (VString "A"); when [num 1; num 2] (VString "B")] ∅
    = Ok (VString "A").
Proof. reflexivity. Qed.

Example scenario_no_arm :
  match_ [num 7] [when [num 1] (VString "A"); when [num 2] (VString "B")] ∅
    = Ok VUndefined.
Proof. reflexivity. Qed.

Example scenario_untruthy_values :
  when [VNull] (VString "result") ∅ [VNull] = Ok (PositiveMatch (VString "result")) /\
  when [VUndefined] (VString "result") ∅ [VUndefined]
    = Ok (PositiveMatch (VString "result")) /\
  when [VString ""] (VString "result") ∅ [VString ""]
    = Ok (PositiveMatch (VString "result")) /\
  when [num 0] (VString "result") ∅ [num 0] = Ok (PositiveMatch (VString "result")) /\
  when [VBigInt 9007199254740991] (VString "result") ∅ [VBigInt 9007199254740991]
    = Ok (PositiveMatch (VString "result")).
Proof. repeat split. Qed.

Example scenario_nan :
  when [VNumber S754_nan] (VString "R") ∅ [VNumber S754_nan] = Ok NegativeMatch.
Proof. reflexivity. Qed.

Example scenario_zeros :
  when [VNumber (S754_zero false)] (VString "R") ∅ [VNumber (S754_zero true)]
    = Ok (PositiveMatch (VString "R")).
Proof. reflexivity. Qed.

(** Two distinct objects with the same contents do not match. *)
Example scenario_distinct_objects :
  let o := Object {[ "a" := num 1 ]} None in
  let h : heap := <[ 2%positive := o ]> {[ 1%positive := o ]} in
  when [VRef 1] (VString "R") h [VRef 2] = Ok NegativeMatch /\
  when [VRef 1] (VString "R") h [VRef 1] = Ok (PositiveMatch (VString "R")).
Proof. split; reflexivity. Qed.

(** Outside the documented input: an object tagged ['either'] without an
    [elements] array makes the matcher raise, and [match], which calls
    every arm before it selects, raises with it even after an arm that
    qualifies. *)
Example scenario_malformed_descriptor :
  let o := Object {[ "operator" := VString "either" ]} None in
  let h : heap := {[ 1%positive := o ]} in
  when [VRef 1] (VString "R") h [num 1]
    = Throw (TypeError "Cannot read properties of undefined or null") /\
  match_ [num 1] [when [_'] (VString "A"); when [VRef 1] (VString "B")] h
    = Throw (TypeError "Cannot read properties of undefined or null").
Proof. split; reflexivity. Qed.

(** * Further properties of the engine *)

(** ** The constructors and the heap *)

Lemma construct_inv (op : Operator) (els : list value) (h h1 : heap) (d : value) :
  construct op els h = (d, h1) ->
  exists l la,
    d = VRef l /\ l <> la /\ h !! l = None /\ h !! la = None /\
    h1 = <[l := Object (<["operator" := operator_tag op]>
                          (<["elements" := VRef la]> ∅)) None]>
           (<[la := array els]> h).
Proof.
  intros Hc.
  assert (Hop : exists arr h0, alloc (array els) h = (arr, h0) /\
                               operation op arr h0 = (d, h1)).
  { destruct op; simpl in Hc; unfold either, neither in Hc;
      destruct (alloc (array els) h) as [arr h0]; eauto. }
  destruct Hop as (arr & h0 & (la & -> & Hla & ->)%alloc_inv
                       & (l & -> & Hl & ->)%alloc_inv).
  assert (l <> la) by (intros ->; now rewrite lookup_insert_eq in Hl).
  exists l, la. repeat split; auto.
  now rewrite lookup_insert_ne in Hl by auto.
Qed.

Lemma construct_extends (op : Operator) (els : list value) (h h1 : heap) (d : value) :
  construct op els h = (d, h1) -> h ⊆ h1.
Proof.
  intros (l & la & -> & Hne & Hl & Hla & ->)%construct_inv.
  transitivity (<[la := array els]> h).
  - now apply insert_subseteq.
  - apply insert_subseteq. now rewrite lookup_insert_ne by auto.
Qed.

Lemma construct_descriptor (op : Operator) (els : list value)
    (h h1 h2 : heap) (d : value) :
  construct op els h = (d, h1) -> h1 ⊆ h2 -> descriptor_at h2 d op els.
Proof.
  destruct op; simpl; [apply either_descriptor | apply neither_descriptor].
Qed.

(** X1: a constructor leaves every object of the heap as it was, returns
    a reference that was not in use, and what it built reads back as it
    was given: the tag of the constructor and an array, itself new,
    holding the elements in their order, duplicates included. *)
Theorem constructor_round_trip (op : Operator) (els : list value)
    (h h1 : heap) (d : value) :
  construct op els h = (d, h1) ->
  h ⊆ h1 /\
  (exists l, d = VRef l /\ h !! l = None) /\
  get h1 d "operator" = Ok (operator_tag op) /\
  exists la, h !! la = None /\
             get h1 d "elements" = Ok (VRef la) /\
             array_items h1 (VRef la) = Ok els.
Proof.
  intros Hc. split; [eapply construct_extends; eassumption|].
  destruct (construct_inv _ _ _ _ _ Hc) as (l & la & -> & Hne & Hl & Hla & ->).
  split; [eauto|]. split.
  - simpl. now rewrite lookup_insert_eq.
  - exists la. split; [assumption|]. simpl. rewrite lookup_insert_eq. simpl.
    split; [reflexivity|].
    rewrite lookup_insert_ne by auto. now rewrite lookup_insert_eq.
Qed.

Lemma constructor_round_trip_witness :
  let d := (either [num 2; num 1; num 2] ∅).1 in
  let h1 := (either [num 2; num 1; num 2] ∅).2 in
  construct Either [num 2; num 1; num 2] ∅ = (d, h1) /\
  get h1 d "operator" = Ok (VString "either").
Proof.
  intros d h1.
  assert (Hc : construct Either [num 2; num 1; num 2] ∅ = (d, h1)) by reflexivity.
  split; [exact Hc|].
  exact (proj1 (proj2 (proj2 (constructor_round_trip _ _ _ _ _ Hc)))).
Defined.

(** X2: two descriptors built one after the other are different objects,
    also when they list the same elements, and building the second leaves
    the first one intact. *)
Theorem constructors_never_share (op op' : Operator) (els els' : list value)
    (h h1 h2 : heap) (d d' : value) :
  construct op els h = (d, h1) ->
  construct op' els' h1 = (d', h2) ->
  strict_eq d d' = false /\
  descriptor_at h2 d op els /\
  descriptor_at h2 d' op' els'.
Proof.
  intros Hc Hc'.
  pose proof (construct_extends _ _ _ _ _ Hc') as Hsub.
  split; [|split].
  - destruct (construct_descriptor op els h h1 h1 d Hc) as (l & ? & ? & ? & -> & Hl & _);
      [reflexivity|].
    destruct (construct_inv _ _ _ _ _ Hc') as (l' & ? & -> & _ & Hl' & _).
    simpl. apply Pos.eqb_neq. congruence.
  - eapply construct_descriptor; eassumption.
  - eapply construct_descriptor; [eassumption | reflexivity].
Qed.

Lemma constructors_never_share_witness :
  let d := (either [num 1] ∅).1 in
  let h1 := (either [num 1] ∅).2 in
  let d' := (either [num 1] h1).1 in
  let h2 := (either [num 1] h1).2 in
  construct Either [num 1] ∅ = (d, h1) /\
  construct Either [num 1] h1 = (d', h2) /\
  strict_eq d d' = false.
Proof.
  intros d h1 d' h2.
  assert (Hc : construct Either [num 1] ∅ = (d, h1)) by reflexivity.
  assert (Hc' : construct Either [num 1] h1 = (d', h2)) by reflexivity.
  split; [exact Hc|]. split; [exact Hc'|].
  exact (proj1 (constructors_never_share _ _ _ _ _ _ _ _ _ Hc Hc')).
Defined.

(** ** What decides the outcome of a matcher *)

(** X3: a matcher is positive exactly when pattern and values have the
    same length and every position continues, and the result it carries
    is always the one given to [when]. *)
Theorem when_positive_iff (h : heap) (pattern values : list value) (r r' : value) :
  when pattern r h values = Ok (PositiveMatch r') <->
  r' = r /\ Forall2 (fun p v => position h p v = Continue) pattern values.
Proof.
  split; [|intros [-> Hall]; now apply when_all_continue].
  revert values. induction pattern as [|p ps IH]; intros values Hw.
  - destruct values; [|discriminate]. injection Hw as <-. now split.
  - destruct values as [|v vs]; [discriminate|].
    destruct (decide (List.length ps = List.length vs)) as [Hlen|Hlen].
    + rewrite when_cons in Hw by assumption.
      destruct (position h p v) as [|m|e] eqn:Hp.
      * destruct (IH _ Hw) as [-> Hall]. split; [reflexivity|]. now constructor.
      * apply position_return in Hp. congruence.
      * discriminate.
    + rewrite when_length_ne in Hw by (simpl; congruence). discriminate.
Qed.

Lemma when_split (h : heap) (r p v : value) (pre post vpre vpost : list value) :
  Forall2 (fun q w => position h q w = Continue) pre vpre ->
  List.length post = List.length vpost ->
  when (pre ++ p :: post) r h (vpre ++ v :: vpost) =
    match position h p v with
    | Continue => when post r h vpost
    | Return _ => Ok NegativeMatch
    | Raise e => Throw e
    end.
Proof.
  intros Hpre Hpost.
  induction Hpre as [|q w qs ws Hq Hrest IH]; simpl.
  - rewrite when_cons by assumption.
    destruct (position h p v) as [|m|e] eqn:Hp; try reflexivity.
    now rewrite (position_return _ _ _ _ Hp).
  - rewrite when_cons, Hq; [exact IH|].
    rewrite !length_app. simpl. rewrite (Forall2_length _ _ _ Hrest). lia.
Qed.

(** X4: the first position that does not continue decides the outcome:
    the matcher is negative when that position returns and raises when it
    raises, whatever stands at the later positions, which are never
    looked at. *)
Theorem when_first_failure (h : heap) (r p v : value)
    (pre post vpre vpost : list value) :
  Forall2 (fun q w => position h q w = Continue) pre vpre ->
  List.length post = List.length vpost ->
  when (pre ++ p :: post) r h (vpre ++ v :: vpost) =
    match position h p v with
    | Continue => when post r h vpost
    | Return _ => Ok NegativeMatch
    | Raise e => Throw e
    end.
Proof. apply when_split. Qed.

Lemma when_first_failure_witness :
  let o := Object {[ "operator" := VString "either" ]} None in
  let h : heap := {[ 1%positive := o ]} in
  Forall2 (fun q w => position h q w = Continue) [_'] [num 7] /\
  List.length [VRef 1] = List.length [num 9] /\
  when ([_'] ++ num 1 :: [VRef 1]) (VString "R") h ([num 7] ++ num 2 :: [num 9])
    = Ok NegativeMatch.
Proof.
  intros o h.
  assert (H : Forall2 (fun q w => position h q w = Continue) [_'] [num 7])
    by (repeat constructor).
  split; [exact H|]. split; [reflexivity|].
  exact (when_first_failure h (VString "R") (num 1) (num 2)
           [_'] [VRef 1] [num 7] [num 9] H eq_refl).
Defined.

Lemma position_raise_inv (h : heap) (p v : value) (e : exn) :
  position h p v = Raise e ->
  (classify h p = KEither \/ classify h p = KNeither) /\
  array_items h (get_opt h p "elements") = Throw e.
Proof.
  unfold position, classify, strict_neq.
  destruct (strict_eq p WILDCARD_VALUE); [discriminate|].
  destruct (truthy (get_opt h p "operator")) eqn:Ht.
  - rewrite (get_truthy _ _ _ "operator" Ht), (get_truthy _ _ _ "elements" Ht).
    simpl. unfold array_some, array_every.
    destruct (strict_eq (get_opt h p "operator") (VString "either")).
    + destruct (array_items h (get_opt h p "elements")) as [xs|e']; simpl.
      * destruct (existsb _ xs); discriminate.
      * intros [= ->]. auto.
    + destruct (strict_eq (get_opt h p "operator") (VString "neither")).
      * destruct (array_items h (get_opt h p "elements")) as [xs|e']; simpl.
        -- destruct (forallb _ xs); discriminate.
        -- intros [= ->]. auto.
      * destruct (strict_eq p v); discriminate.
  - destruct (strict_eq p v); discriminate.
Qed.

(** X5: a matcher raises only on a malformed descriptor: some pattern
    element is tagged ['either'] or ['neither'] and its [elements] is not
    an array, the exception being the one of that failed call. *)
Theorem when_raises_only_on_malformed (h : heap) (pattern values : list value)
    (r : value) (e : exn) :
  when pattern r h values = Throw e ->
  exists i p,
    pattern !! i = Some p /\
    (classify h p = KEither \/ classify h p = KNeither) /\
    array_items h (get_opt h p "elements") = Throw e.
Proof.
  revert values. induction pattern as [|p ps IH]; intros values Hw.
  - destruct values; discriminate.
  - destruct values as [|v vs]; [discriminate|].
    destruct (decide (List.length ps = List.length vs)) as [Hlen|Hlen].
    + rewrite when_cons in Hw by assumption.
      destruct (position h p v) as [|m|e'] eqn:Hp.
      * destruct (IH _ Hw) as (i & q & Hi & Hq). exists (S i), q. auto.
      * discriminate.
      * injection Hw as ->. exists 0, p. split; [reflexivity|].
        eapply position_raise_inv; eassumption.
    + rewrite when_length_ne in Hw by (simpl; congruence). discriminate.
Qed.

Lemma when_raises_only_on_malformed_witness :
  let o := Object {[ "operator" := VString "neither" ]} None in
  let h : heap := {[ 1%positive := o ]} in
  let e := TypeError "Cannot read properties of undefined or null" in
  when [VRef 1] (VString "R") h [num 1] = Throw e /\
  exists i p,
    [VRef 1] !! i = Some p /\
    (classify h p = KEither \/ classify h p = KNeither) /\
    array_items h (get_opt h p "elements") = Throw e.
Proof.
  intros o h e.
  assert (H : when [VRef 1] (VString "R") h [num 1] = Throw e) by reflexivity.
  split; [exact H|].
  exact (when_raises_only_on_malformed h [VRef 1] [num 1] (VString "R") e H).
Defined.

(** ** What [match] returns *)

Lemma map_arms_inv (h : heap) (values : list value) (ws : list Matcher)
    (ms : list MatchResult) :
  map_arms h values ws = Ok ms ->
  Forall2 (fun w m => w h values = Ok m) ws ms.
Proof.
  revert ms. induction ws as [|w ws IH]; simpl; intros ms.
  - intros [= <-]. constructor.
  - destruct (w h values) as [m|e] eqn:Hw; simpl; [|discriminate].
    destruct (map_arms h values ws) as [ms'|e]; simpl; [|discriminate].
    intros [= <-]. constructor; auto.
Qed.

Lemma selected_result_truthy (m : MatchResult) :
  selected m = true -> m = PositiveMatch (result_of m) /\ truthy (result_of m) = true.
Proof.
  intros (r & -> & Hr)%selected_qualifies. now split.
Qed.

(** X6: [match] calls every arm before it selects, so an arm that raises
    makes [match] raise the same exception, whether or not an earlier arm
    qualifies and whatever the later arms are. *)
Theorem match_raises_with_arm (h : heap) (values : list value)
    (pre : list Matcher) (w : Matcher) (post : list Matcher) (e : exn) :
  Forall (fun w' => exists m, w' h values = Ok m) pre ->
  w h values = Throw e ->
  match_ values (pre ++ w :: post) h = Throw e.
Proof.
  intros Hpre Hw. destruct (map_arms_total _ _ _ Hpre) as [ms Hms].
  unfold match_. rewrite map_arms_app, Hms. simpl. now rewrite Hw.
Qed.

Lemma match_raises_with_arm_witness :
  let o := Object {[ "operator" := VString "either" ]} None in
  let h : heap := {[ 1%positive := o ]} in
  let e := TypeError "Cannot read properties of undefined or null" in
  Forall (fun w' => exists m, w' h [num 1] = Ok m) [when [_'] (VString "A")] /\
  when [VRef 1] (VString "B") h [num 1] = Throw e /\
  match_ [num 1] ([when [_'] (VString "A")] ++ when [VRef 1] (VString "B") :: []) h
    = Throw e.
Proof.
  intros o h e.
  assert (H : Forall (fun w' => exists m, w' h [num 1] = Ok m)
                [when [_'] (VString "A")]).
  { constructor; [|constructor]. eexists; reflexivity. }
  split; [exact H|]. split; [reflexivity|].
  exact (match_raises_with_arm h [num 1] [when [_'] (VString "A")]
           (when [VRef 1] (VString "B")) [] e H eq_refl).
Defined.

Lemma map_arms_source (h : heap) (values : list value) (ws : list Matcher)
    (ms : list MatchResult) (m : MatchResult) :
  map_arms h values ws = Ok ms ->
  In m ms ->
  exists w, w ∈ ws /\ w h values = Ok m.
Proof.
  intros Hms%map_arms_inv Hin.
  induction Hms as [|w m' ws ms Hw _ IH]; [contradiction|].
  destruct Hin as [<-|Hin].
  - exists w. split; [left | assumption].
  - destruct (IH Hin) as (w' & Hw' & Hok). exists w'. split; [now right | assumption].
Qed.

(** X7: what [match] returns is [undefined] or a truthy value that one of
    the arms returned as its positive result: [match] never answers with
    [0], the empty string, [false], [null] or NaN, and never with a value
    of its own making. *)
Theorem match_returns_arm_result (h : heap) (values : list value)
    (whens : list Matcher) (r : value) :
  match_ values whens h = Ok r ->
  r = VUndefined \/
  (truthy r = true /\ exists w, w ∈ whens /\ w h values = Ok (PositiveMatch r)).
Proof.
  unfold match_. destruct (map_arms h values whens) as [ms|e] eqn:Hms; [|discriminate].
  simpl. destruct (find selected ms) as [m|] eqn:Hfind; intros [= <-]; [|now left].
  right. destruct (find_some _ _ Hfind) as [Hin Hsel].
  destruct (selected_result_truthy _ Hsel) as [Hm Ht]. split; [exact Ht|].
  rewrite <- Hm. eapply map_arms_source; eassumption.
Qed.

Lemma match_returns_arm_result_witness :
  match_ [num 1] [when [num 2] (VString "A"); when [_'] (VString "B")] ∅
    = Ok (VString "B") /\
  (VString "B" = VUndefined \/
   (truthy (VString "B") = true /\
    exists w, w ∈ [when [num 2] (VString "A"); when [_'] (VString "B")] /\
              w ∅ [num 1] = Ok (PositiveMatch (VString "B")))).
Proof.
  assert (H : match_ [num 1] [when [num 2] (VString "A"); when [_'] (VString "B")] ∅
              = Ok (VString "B")) by reflexivity.
  split; [exact H|].
  exact (match_returns_arm_result ∅ [num 1] _ (VString "B") H).
Defined.

Lemma replicate_wildcard_continue (h : heap) (values : list value) :
  Forall2 (fun p v => position h p v = Continue)
    (replicate (List.length values) _') values.
Proof.
  induction values as [|v vs IH]; simpl; constructor; auto using position_wildcard.
Qed.

Lemma when_replicate_wildcard (h : heap) (n : nat) (r : value) (values : list value) :
  when (replicate n _') r h values =
    Ok (if Nat.eqb (List.length values) n then PositiveMatch r else NegativeMatch).
Proof.
  destruct (Nat.eqb_spec (List.length values) n) as [<-|Hne].
  - apply when_all_continue, replicate_wildcard_continue.
  - apply when_length_ne. rewrite length_replicate. congruence.
Qed.

(** X8: a pattern made of wildcards only is a catch-all for its arity: the
    matcher is positive on every value tuple of that length and negative
    on every other tuple. *)
Theorem catch_all_arm (h : heap) (n : nat) (r : value) (values : list value) :
  when (replicate n _') r h values =
    Ok (if Nat.eqb (List.length values) n then PositiveMatch r else NegativeMatch).
Proof. apply when_replicate_wildcard. Qed.

(** X9: a wildcard-only arm of the right arity with a truthy result, put
    last, is a default: when the arms before it return normally, [match]
    returns a truthy value, hence never [undefined]. *)
Theorem match_with_default (h : heap) (values : list value)
    (pre : list Matcher) (dflt : value) :
  Forall (fun w => exists m, w h values = Ok m) pre ->
  truthy dflt = true ->
  exists r,
    match_ values (pre ++ [when (replicate (List.length values) _') dflt]) h = Ok r /\
    truthy r = true.
Proof.
  intros Hpre Hd. destruct (map_arms_total _ _ _ Hpre) as [ms Hms].
  unfold match_. rewrite map_arms_app, Hms. simpl.
  rewrite when_replicate_wildcard, Nat.eqb_refl. simpl.
  rewrite find_selected_app.
  destruct (find selected ms) as [m|] eqn:Hfind.
  - destruct (find_some _ _ Hfind) as [_ Hsel].
    exists (result_of m). split; [reflexivity|].
    now apply selected_result_truthy.
  - simpl. unfold selected at 1, js_and. simpl. rewrite Hd.
    exists dflt. now split.
Qed.

Lemma match_with_default_witness :
  Forall (fun w => exists m, w ∅ [num 5; num 6] = Ok m) [when [num 1; num 2] (VString "A")] /\
  truthy (VString "other") = true /\
  exists r,
    match_ [num 5; num 6]
      ([when [num 1; num 2] (VString "A")]
       ++ [when (replicate (List.length [num 5; num 6]) _') (VString "other")]) ∅ = Ok r /\
    truthy r = true.
Proof.
  assert (H : Forall (fun w => exists m, w ∅ [num 5; num 6] = Ok m)
                [when [num 1; num 2] (VString "A")]).
  { constructor; [|constructor]. eexists; reflexivity. }
  split; [exact H|]. split; [reflexivity|].
  exact (match_with_default ∅ [num 5; num 6] _ (VString "other") H eq_refl).
Defined.

(** ** Descriptors as sets *)

Lemma forallb_neq_existsb (els : list value) (v : value) :
  forallb (fun elem => strict_neq elem v) els
    = negb (existsb (fun elem => strict_eq elem v) els).
Proof.
  induction els as [|x xs IH]; simpl; [reflexivity|].
  rewrite IH. unfold strict_neq. now destruct (strict_eq x v).
Qed.

Lemma existsb_same_members (f : value -> bool) (els els' : list value) :
  (forall x, x ∈ els <-> x ∈ els') -> existsb f els = existsb f els'.
Proof.
  intros Hsame. apply eq_true_iff_eq. rewrite !existsb_exists.
  split; intros (x & Hx & Hf); exists x; split; auto;
    apply list_elem_of_In; apply Hsame; now apply list_elem_of_In.
Qed.

(** X10: over the same elements [neither] is the complement of [either]:
    at every value exactly one of the two descriptors lets the position
    continue, the other one returning the negative outcome. *)
Theorem either_neither_complement (els : list value) (h h1 h2 h3 : heap)
    (e n v : value) :
  construct Either els h = (e, h1) ->
  construct Neither els h1 = (n, h2) ->
  h2 ⊆ h3 ->
  (position h3 e v = Continue /\ position h3 n v = Return NegativeMatch) \/
  (position h3 e v = Return NegativeMatch /\ position h3 n v = Continue).
Proof.
  intros He Hn Hsub.
  assert (Hde : descriptor_at h3 e Either els).
  { eapply construct_descriptor; [exact He|].
    transitivity h2; [eapply construct_extends; eassumption | assumption]. }
  assert (Hdn : descriptor_at h3 n Neither els)
    by (eapply construct_descriptor; eassumption).
  rewrite (position_descriptor _ _ _ _ v Hde), (position_descriptor _ _ _ _ v Hdn).
  rewrite forallb_neq_existsb.
  destruct (existsb _ els); simpl; auto.
Qed.

Lemma either_neither_complement_witness :
  let e := (either [num 1; num 2] ∅).1 in
  let h1 := (either [num 1; num 2] ∅).2 in
  let n := (neither [num 1; num 2] h1).1 in
  let h2 := (neither [num 1; num 2] h1).2 in
  construct Either [num 1; num 2] ∅ = (e, h1) /\
  construct Neither [num 1; num 2] h1 = (n, h2) /\
  h2 ⊆ h2 /\
  ((position h2 e (num 3) = Continue /\ position h2 n (num 3) = Return NegativeMatch) \/
   (position h2 e (num 3) = Return NegativeMatch /\ position h2 n (num 3) = Continue)).
Proof.
  intros e h1 n h2.
  assert (He : construct Either [num 1; num 2] ∅ = (e, h1)) by reflexivity.
  assert (Hn : construct Neither [num 1; num 2] h1 = (n, h2)) by reflexivity.
  assert (Hsub : h2 ⊆ h2) by reflexivity.
  split; [exact He|]. split; [exact Hn|]. split; [exact Hsub|].
  exact (either_neither_complement _ _ _ _ _ _ _ (num 3) He Hn Hsub).
Defined.

(** X11: only membership in the element list counts: two descriptors of
    the same constructor whose lists have the same members, in whatever
    order and with whatever repetitions, decide every value alike. *)
Theorem descriptor_elements_as_set (op : Operator) (els els' : list value)
    (h h1 h2 h3 : heap) (d d' v : value) :
  construct op els h = (d, h1) ->
  construct op els' h1 = (d', h2) ->
  h2 ⊆ h3 ->
  (forall x, x ∈ els <-> x ∈ els') ->
  position h3 d v = position h3 d' v.
Proof.
  intros Hd Hd' Hsub Hsame.
  assert (H1 : descriptor_at h3 d op els).
  { eapply construct_descriptor; [exact Hd|].
    transitivity h2; [eapply construct_extends; eassumption | assumption]. }
  assert (H2 : descriptor_at h3 d' op els')
    by (eapply construct_descriptor; eassumption).
  rewrite (position_descriptor _ _ _ _ v H1), (position_descriptor _ _ _ _ v H2).
  destruct op.
  - now rewrite (existsb_same_members _ els els' Hsame).
  - rewrite !forallb_neq_existsb.
    now rewrite (existsb_same_members _ els els' Hsame).
Qed.

Lemma descriptor_elements_as_set_witness :
  let d := (either [num 1; num 2] ∅).1 in
  let h1 := (either [num 1; num 2] ∅).2 in
  let d' := (either [num 2; num 1; num 2] h1).1 in
  let h2 := (either [num 2; num 1; num 2] h1).2 in
  construct Either [num 1; num 2] ∅ = (d, h1) /\
  construct Either [num 2; num 1; num 2] h1 = (d', h2) /\
  h2 ⊆ h2 /\
  (forall x, x ∈ [num 1; num 2] <-> x ∈ [num 2; num 1; num 2]) /\
  position h2 d (num 2) = position h2 d' (num 2).
Proof.
  intros d h1 d' h2.
  assert (Hd : construct Either [num 1; num 2] ∅ = (d, h1)) by reflexivity.
  assert (Hd' : construct Either [num 2; num 1; num 2] h1 = (d', h2)) by reflexivity.
  assert (Hsub : h2 ⊆ h2) by reflexivity.
  assert (Hsame : forall x, x ∈ [num 1; num 2] <-> x ∈ [num 2; num 1; num 2]).
  { intros x. rewrite !elem_of_cons, !elem_of_nil. tauto. }
  split; [exact Hd|]. split; [exact Hd'|]. split; [exact Hsub|].
  split; [exact Hsame|].
  exact (descriptor_elements_as_set _ _ _ _ _ _ _ _ _ (num 2) Hd Hd' Hsub Hsame).
Defined.

(** X12: the wildcard has no special meaning inside a descriptor: listed
    as the only element it is compared like any other string, so
    [either(_)] accepts the sentinel string alone and [neither(_)] every
    value but it. *)
Theorem wildcard_inside_descriptor (op : Operator) (h h1 h2 : heap) (d v : value) :
  construct op [_'] h = (d, h1) ->
  h1 ⊆ h2 ->
  (position h2 d v = Continue <->
   match op with
   | Either => v = _'
   | Neither => v <> _'
   end).
Proof.
  intros Hc Hsub.
  rewrite (position_descriptor _ _ _ _ v (construct_descriptor _ _ _ _ _ _ Hc Hsub)).
  pose proof (strict_eq_string "__primitive__match__wildcard__value__" v) as Hs.
  change (VString "__primitive__match__wildcard__value__") with _' in Hs.
  destruct op; cbn [existsb forallb]; unfold strict_neq;
    rewrite ?orb_false_r, ?andb_true_r; rewrite <- Hs.
  - now destruct (strict_eq _' v).
  - destruct (strict_eq _' v); cbn [negb]; split; congruence.
Qed.

Lemma wildcard_inside_descriptor_witness :
  let d := (either [_'] ∅).1 in
  let h1 := (either [_'] ∅).2 in
  construct Either [_'] ∅ = (d, h1) /\ h1 ⊆ h1 /\
  (position h1 d (num 5) = Continue <-> num 5 = _').
Proof.
  intros d h1.
  assert (Hc : construct Either [_'] ∅ = (d, h1)) by reflexivity.
  assert (Hsub : h1 ⊆ h1) by reflexivity.
  split; [exact Hc|]. split; [exact Hsub|].
  exact (wildcard_inside_descriptor Either ∅ h1 h1 d (num 5) Hc Hsub).
Defined.

(** ** Negative outcomes *)

(** X13: a matcher is negative exactly when the lengths differ or, the
    lengths being equal, the positions continue up to one that returns. *)
Theorem when_negative_iff (h : heap) (pattern values : list value) (r : value) :
  when pattern r h values = Ok NegativeMatch <->
  List.length pattern <> List.length values \/
  exists pre p post vpre v vpost,
    pattern = pre ++ p :: post /\ values = vpre ++ v :: vpost /\
    Forall2 (fun q w => position h q w = Continue) pre vpre /\
    List.length post = List.length vpost /\
    position h p v = Return NegativeMatch.
Proof.
  split.
  - revert values. induction pattern as [|p ps IH]; intros values Hw.
    + destruct values; [discriminate|]. now left.
    + destruct values as [|v vs]; [now left|].
      destruct (decide (List.length ps = List.length vs)) as [Hlen|Hlen];
        [|left; simpl; congruence].
      right. rewrite when_cons in Hw by assumption.
      destruct (position h p v) as [|m|e] eqn:Hp; [| |discriminate].
      * destruct (IH _ Hw) as [Hne|(pre & q & post & vpre & w & vpost
                                     & -> & -> & Hpre & Hpost & Hq)];
          [contradiction|].
        exists (p :: pre), q, post, (v :: vpre), w, vpost.
        repeat split; auto.
      * exists [], p, ps, [], v, vs. repeat split; auto.
        now rewrite (position_return _ _ _ _ Hp) in Hp.
  - intros [Hne|(pre & p & post & vpre & v & vpost & -> & -> & Hpre & Hpost & Hp)].
    + now apply when_length_ne.
    + rewrite when_split by assumption. now rewrite Hp.
Qed.

(** ** Later allocations *)

Lemma property_frame (h h' : heap) (p : value) (key : string) :
  h ⊆ h' ->
  (forall l, p = VRef l -> is_Some (h !! l)) ->
  property h' p key = property h p key.
Proof.
  intros Hsub Halloc. destruct p; try reflexivity. simpl.
  destruct (Halloc l eq_refl) as [o Ho].
  now rewrite Ho, (lookup_weaken _ _ _ _ Ho Hsub).
Qed.

Lemma array_items_frame (h h' : heap) (a : value) (xs : list value) :
  h ⊆ h' -> array_items h a = Ok xs -> array_items h' a = Ok xs.
Proof.
  intros Hsub. destruct a; simpl; try discriminate.
  destruct (h !! l) as [o|] eqn:Ho; [|discriminate].
  now rewrite (lookup_weaken _ _ _ _ Ho Hsub).
Qed.

Lemma position_frame (h h' : heap) (p v : value) :
  h ⊆ h' ->
  (forall l, p = VRef l -> is_Some (h !! l)) ->
  (forall e, position h p v <> Raise e) ->
  position h' p v = position h p v.
Proof.
  intros Hsub Halloc Hok.
  assert (Hget : forall key, get_opt h' p key = get_opt h p key).
  { intros key. rewrite !get_opt_property. now apply property_frame. }
  revert Hok. unfold position.
  destruct (strict_eq p WILDCARD_VALUE); [reflexivity|].
  rewrite (Hget "operator").
  destruct (truthy (get_opt h p "operator")) eqn:Ht; [|reflexivity].
  assert (Ht' : truthy (get_opt h' p "operator") = true) by now rewrite Hget.
  rewrite (get_truthy _ _ _ "operator" Ht), (get_truthy _ _ _ "elements" Ht).
  rewrite (get_truthy _ _ _ "operator" Ht'), (get_truthy _ _ _ "elements" Ht').
  rewrite !Hget. simpl. unfold array_some, array_every.
  destruct (array_items h (get_opt h p "elements")) as [xs|e] eqn:Hitems.
  - now rewrite (array_items_frame _ _ _ _ Hsub Hitems).
  - simpl.
    destruct (strict_eq (get_opt h p "operator") (VString "either"));
      [intros Hok; now destruct (Hok e)|].
    destruct (strict_eq (get_opt h p "operator") (VString "neither"));
      [intros Hok; now destruct (Hok e)|].
    reflexivity.
Qed.

(** X14: an outcome obtained once stays the same when objects are
    allocated later, for instance by building further descriptors: if the
    references of the pattern are allocated in [h] and the matcher returns
    [m] there, it returns [m] in every heap that extends [h]. *)
Theorem matcher_stable_under_allocation (h h' : heap) (pattern values : list value)
    (r : value) (m : MatchResult) :
  h ⊆ h' ->
  Forall (fun p => forall l, p = VRef l -> is_Some (h !! l)) pattern ->
  when pattern r h values = Ok m ->
  when pattern r h' values = Ok m.
Proof.
  intros Hsub Halloc. revert values.
  induction Halloc as [|p ps Hp _ IH]; intros values Hw.
  - destruct values; exact Hw.
  - destruct values as [|v vs]; [exact Hw|].
    destruct (decide (List.length ps = List.length vs)) as [Hlen|Hlen].
    + rewrite when_cons in Hw |- * by assumption.
      assert (Hok : forall e, position h p v <> Raise e)
        by (intros e He; rewrite He in Hw; discriminate).
      rewrite (position_frame _ _ _ _ Hsub Hp Hok).
      destruct (position h p v); auto.
    + rewrite when_length_ne in Hw |- * by (simpl; congruence). exact Hw.
Qed.

Lemma matcher_stable_under_allocation_witness :
  let d := (either [num 1; num 2] ∅).1 in
  let h := (either [num 1; num 2] ∅).2 in
  let h' := (neither [num 3] h).2 in
  h ⊆ h' /\
  Forall (fun p => forall l, p = VRef l -> is_Some (h !! l)) [d; num 7] /\
  when [d; num 7] (VString "R") h [num 2; num 7] = Ok (PositiveMatch (VString "R")) /\
  when [d; num 7] (VString "R") h' [num 2; num 7] = Ok (PositiveMatch (VString "R")).
Proof.
  intros d h h'.
  assert (Hsub : h ⊆ h').
  { apply (construct_extends Neither [num 3] h h' (neither [num 3] h).1).
    reflexivity. }
  assert (Halloc : Forall (fun p => forall l, p = VRef l -> is_Some (h !! l))
                     [d; num 7]).
  { constructor; [|constructor; [|constructor]].
    - intros l [= <-]. eexists. reflexivity.
    - intros l [=]. }
  assert (Hw : when [d; num 7] (VString "R") h [num 2; num 7]
               = Ok (PositiveMatch (VString "R"))) by reflexivity.
  split; [exact Hsub|]. split; [exact Halloc|]. split; [exact Hw|].
  exact (matcher_stable_under_allocation h h' _ _ _ _ Hsub Halloc Hw).
Defined.

(** ** Iterations of the loop *)

Lemma fuel_for_loop_shift (fuel : nat) (h : heap) (p : value) (ps : list value)
    (r v : value) (vs : list value) (i : nat) :
  Fuel.for_loop fuel h (p :: ps) r (v :: vs) (S i)
    = Fuel.for_loop fuel h ps r vs i.
Proof.
  revert i. induction fuel as [|fuel IH]; intros i; [reflexivity|].
  cbn [Fuel.for_loop].
  change (Nat.ltb (S i) (List.length (p :: ps))) with (Nat.ltb i (List.length ps)).
  change (index (p :: ps) (S i)) with (index ps i).
  change (index (v :: vs) (S i)) with (index vs i).
  now rewrite IH.
Qed.

Lemma fuel_when_zero (p : value) (ps : list value) (r : value) (h : heap)
    (v : value) (vs : list value) :
  List.length ps = List.length vs ->
  Fuel.when (p :: ps) r 0 h (v :: vs) = None.
Proof.
  intros Hlen. unfold Fuel.when. simpl. now rewrite Hlen, Nat.eqb_refl.
Qed.

Lemma fuel_when_cons (p : value) (ps : list value) (r : value) (fuel : nat)
    (h : heap) (v : value) (vs : list value) :
  List.length ps = List.length vs ->
  Fuel.when (p :: ps) r (S fuel) h (v :: vs) =
    match position h p v with
    | Continue => Fuel.when ps r fuel h vs
    | Return m => Some (Ok m)
    | Raise e => Some (Throw e)
    end.
Proof.
  intros Hlen. unfold Fuel.when. simpl. rewrite Hlen, Nat.eqb_refl. simpl.
  change (index (p :: ps) 0) with p. change (index (v :: vs) 0) with v.
  now rewrite fuel_for_loop_shift.
Qed.

(** X15: the matcher stops at the first position that does not continue:
    when the positions before index [i] continue and the one at [i] does
    not, [i + 1] iterations are enough for the call to return, however
    long the pattern is. *)
Theorem matcher_stops_at_first_failure (h : heap) (r p v : value)
    (pre post vpre vpost : list value) :
  Forall2 (fun q w => position h q w = Continue) pre vpre ->
  List.length post = List.length vpost ->
  position h p v <> Continue ->
  Fuel.when (pre ++ p :: post) r (S (List.length pre)) h (vpre ++ v :: vpost)
    = Some (when (pre ++ p :: post) r h (vpre ++ v :: vpost)).
Proof.
  intros Hpre Hpost Hp.
  induction Hpre as [|q w qs ws Hq Hrest IH]; simpl.
  - rewrite fuel_when_cons, when_cons by assumption.
    now destruct (position h p v).
  - assert (Hlen : List.length (qs ++ p :: post) = List.length (ws ++ v :: vpost)).
    { rewrite !length_app. simpl. rewrite (Forall2_length _ _ _ Hrest). lia. }
    rewrite fuel_when_cons, when_cons by assumption.
    now rewrite Hq.
Qed.

Lemma matcher_stops_at_first_failure_witness :
  Forall2 (fun q w => position ∅ q w = Continue) [_'] [num 7] /\
  List.length [num 3; num 4; num 5] = List.length [num 3; num 4; num 5] /\
  position ∅ (num 1) (num 2) <> Continue /\
  Fuel.when ([_'] ++ num 1 :: [num 3; num 4; num 5]) (VString "R") 2 ∅
    ([num 7] ++ num 2 :: [num 3; num 4; num 5])
    = Some (Ok NegativeMatch).
Proof.
  assert (H1 : Forall2 (fun q w => position ∅ q w = Continue) [_'] [num 7])
    by (repeat constructor).
  assert (H2 : position ∅ (num 1) (num 2) <> Continue) by discriminate.
  split; [exact H1|]. split; [reflexivity|]. split; [exact H2|].
  exact (matcher_stops_at_first_failure ∅ (VString "R") (num 1) (num 2)
           [_'] [num 3; num 4; num 5] [num 7] [num 3; num 4; num 5] H1 eq_refl H2).
Defined.

(** X16: a matcher whose positions all continue runs the loop to its end:
    the call returns exactly when the budget exceeds the pattern length,
    so the bound of one iteration per pattern element, plus the final
    test of the guard, is reached. *)
Theorem matcher_budget_is_tight (h : heap) (r : value) (pattern values : list value)
    (fuel : nat) :
  Forall2 (fun p v => position h p v = Continue) pattern values ->
  (Fuel.when pattern r fuel h values = None <-> fuel <= List.length pattern).
Proof.
  intros Hall. revert fuel.
  induction Hall as [|p v ps vs Hp Hrest IH]; intros fuel.
  - destruct fuel; simpl; [split; auto|]. split; [discriminate | lia].
  - pose proof (Forall2_length _ _ _ Hrest) as Hlen.
    destruct fuel as [|fuel].
    + rewrite fuel_when_zero by assumption. simpl. split; [lia | reflexivity].
    + rewrite fuel_when_cons, Hp, IH by assumption. simpl. lia.
Qed.

Lemma matcher_budget_is_tight_witness :
  Forall2 (fun p v => position ∅ p v = Continue) [num 1; _'] [num 1; num 2] /\
  (Fuel.when [num 1; _'] (VString "R") 2 ∅ [num 1; num 2] = None
   <-> 2 <= List.length [num 1; _']).
Proof.
  assert (H : Forall2 (fun p v => position ∅ p v = Continue)
                [num 1; _'] [num 1; num 2]) by (repeat constructor).
  split; [exact H|].
  exact (matcher_budget_is_tight ∅ (VString "R") _ _ 2 H).
Defined.







(** ** Arms of another arity *)

(** X18: an arm whose pattern has not the length of the value tuple is
    inert in [match]: whatever its pattern holds, malformed descriptors
    included, the answer is the one of the arm list without it. *)
Theorem mismatched_arity_arm_is_inert (h : heap) (values pattern : list value)
    (r : value) (pre post : list Matcher) :
  List.length pattern <> List.length values ->
  match_ values (pre ++ when pattern r :: post) h = match_ values (pre ++ post) h.
Proof.
  intros Hne. unfold match_. rewrite !map_arms_app. cbn [map_arms].
  rewrite (when_length_ne _ r h _ Hne).
  destruct (map_arms h values pre) as [ms1|e]; simpl; [|reflexivity].
  destruct (map_arms h values post) as [ms2|e]; simpl; [|reflexivity].
  now rewrite !find_selected_app.
Qed.

Lemma mismatched_arity_arm_is_inert_witness :
  let o := Object {[ "operator" := VString "either" ]} None in
  let h : heap := {[ 1%positive := o ]} in
  List.length [VRef 1; num 2] <> List.length [num 1] /\
  match_ [num 1] ([] ++ when [VRef 1; num 2] (VString "A") :: [when [_'] (VString "B")]) h
    = match_ [num 1] ([] ++ [when [_'] (VString "B")]) h.
Proof.
  intros o h.
  assert (H : List.length [VRef 1; num 2] <> List.length [num 1]) by discriminate.
  split; [exact H|].
  exact (mismatched_arity_arm_is_inert h [num 1] [VRef 1; num 2] (VString "A")
           [] [when [_'] (VString "B")] H).
Defined.
